(** * GatomIA code analyzer: module tree and dependency graph analysis

    A shallow embedding of [codewiki_analyzer.py] (class [GatomiaAnalyzer])
    and the properties of its parsed structures, its dependency
    classification, its processing order and its role heuristic.

    Conventions of the embedding.
    - A Python [dict] with string keys is an association list in insertion
      order ([dict]); [dict_set] is [d[k] = v]: it overwrites in place when
      the key is present and appends otherwise, as CPython does.
    - A Python [str] is a [string] (a sequence of bytes); [str.lower] is
      modelled on the ASCII letters.
    - Python integers that count things are [nat].
    - The floats of the source are the literals 0.5 .. 0.8 and one quotient
      of two list lengths; they are modelled by the rationals they denote.
    - A function that can raise returns an [outcome].
    - Reading the two JSON files is outside the model: [init] takes the
      loaded objects.  [self.parsed_tree] is a dict of five keys, hence
      always true where the source tests it. *)

From Stdlib Require Import List String Ascii Arith Bool Lia.
From Stdlib Require Import ZArith QArith DecimalString.
Import ListNotations.

Set Warnings "-register-all".

Local Open Scope nat_scope.
Local Open Scope string_scope.
Local Open Scope list_scope.

(** ** Python values *)

Definition dict (V : Type) : Type := list (string * V).

Fixpoint dict_get {V : Type} (k : string) (d : dict V) : option V :=
  match d with
  | [] => None
  | (k', v) :: rest => if String.eqb k k' then Some v else dict_get k rest
  end.

(** [k in d] *)
Definition dict_mem {V : Type} (k : string) (d : dict V) : bool :=
  match dict_get k d with Some _ => true | None => false end.

(** [d[k] = v] *)
Fixpoint dict_set {V : Type} (k : string) (v : V) (d : dict V) : dict V :=
  match d with
  | [] => [(k, v)]
  | (k', v') :: rest =>
      if String.eqb k k' then (k', v) :: rest else (k', v') :: dict_set k v rest
  end.

Definition dict_keys {V : Type} (d : dict V) : list string := map fst d.

Definition dict_values {V : Type} (d : dict V) : list V := map snd d.

(** [d[k].append(x)] on a [defaultdict(list)] *)
Definition dd_append {V : Type} (k : string) (x : V) (d : dict (list V))
  : dict (list V) :=
  dict_set k (match dict_get k d with Some l => l ++ [x] | None => [x] end) d.

(** [o.get(key, default)] on a JSON object whose key may be absent *)
Definition py_get {A : Type} (o : option A) (default : A) : A :=
  match o with Some a => a | None => default end.

(** truth value of a container *)
Definition nonempty {A : Type} (l : list A) : bool :=
  match l with [] => false | _ :: _ => true end.

(** truth value of an [Optional[str]] *)
Definition truthy (m : option string) : bool :=
  match m with
  | Some s => negb (String.eqb s "")
  | None => false
  end.

(** [==] on [Optional[str]] *)
Definition opt_eqb (a b : option string) : bool :=
  match a, b with
  | Some x, Some y => String.eqb x y
  | None, None => true
  | _, _ => false
  end.

Inductive exn : Type := ValueError.

Inductive outcome (A : Type) : Type :=
| Returned (a : A)
| Raised (e : exn).
Arguments Returned {A} a.
Arguments Raised {A} e.

(** [max(xs)]: raises on an empty sequence *)
Definition py_max (xs : list nat) : outcome nat :=
  match xs with
  | [] => Raised ValueError
  | x :: rest => Returned (fold_left Nat.max rest x)
  end.

(** [range(m, -1, -1)] *)
Fixpoint range_down (m : nat) : list nat :=
  match m with
  | 0 => [0]
  | S k => m :: range_down k
  end.

(** [set.add] followed by [sorted]: the set is kept as a sorted list
    without repetition. *)
Fixpoint set_add (x : string) (s : list string) : list string :=
  match s with
  | [] => [x]
  | y :: rest =>
      match String.compare x y with
      | Eq => s
      | Lt => x :: s
      | Gt => y :: set_add x rest
      end
  end.

Definition lower_ascii (c : ascii) : ascii :=
  let n := nat_of_ascii c in
  if Nat.leb 65 n && Nat.leb n 90 then ascii_of_nat (n + 32) else c.

(** [s.lower()] *)
Fixpoint lower (s : string) : string :=
  match s with
  | EmptyString => EmptyString
  | String c rest => String (lower_ascii c) (lower rest)
  end.

(** [pat in s] *)
Fixpoint str_in (pat s : string) : bool :=
  String.prefix pat s ||
  match s with
  | EmptyString => false
  | String _ rest => str_in pat rest
  end.

(** [s.split(".")] *)
Fixpoint split_dot (s : string) : list string :=
  match s with
  | EmptyString => [EmptyString]
  | String c rest =>
      if Ascii.eqb c "."%char then EmptyString :: split_dot rest
      else match split_dot rest with
           | [] => [String c EmptyString]
           | h :: t => String c h :: t
           end
  end.

(** [str(n)] *)
Definition str_of_nat (n : nat) : string := NilZero.string_of_uint (Nat.to_uint n).

(** ** Inputs *)

(** A node of [module_tree.json].  The source reads both keys with
    [.get(key, default)], so a missing key is the empty collection. *)
Inductive ModuleData : Type :=
  mkModuleData (md_components : list string) (md_children : list (string * ModuleData)).

Definition md_components (m : ModuleData) : list string :=
  match m with mkModuleData c _ => c end.

Definition md_children (m : ModuleData) : dict ModuleData :=
  match m with mkModuleData _ k => k end.

(** An entry of [dependency_graph.json]; [None] is an absent key. *)
Record CompData : Type := mkCompData {
  cd_id : option string;
  cd_name : option string;
  cd_component_type : option string;
  cd_file_path : option string;
  cd_relative_path : option string;
  cd_depends_on : option (list string)
}.

(** ** Parsed structures *)

Record ParsedModule : Type := mkParsedModule {
  path : string;
  components : list string;
  children : dict ModuleData;
  parent : option string;
  is_leaf : bool;
  level : nat
}.

Record ParsedTree : Type := mkParsedTree {
  modules : dict ParsedModule;
  leaf_modules : list string;
  parent_modules : list string;
  root_modules : list string;
  component_to_module : dict string
}.

Record ComponentRecord : Type := mkComponentRecord {
  cid : string;
  name : string;
  component_type : string;
  file_path : string;
  relative_path : string;
  depends_on : list string;
  depended_by : list string;
  module : option string;
  dependency_count : nat;
  dependent_count : nat
}.

Record Analyzer : Type := mkAnalyzer {
  module_tree : dict ModuleData;
  dependency_graph : dict CompData;
  parsed_tree : ParsedTree;
  component_map : dict ComponentRecord;
  reverse_deps : dict (list string)
}.

(** ** parse_module_tree *)

Definition empty_result : ParsedTree :=
  mkParsedTree [] [] [] [] [].

(** The body of the loop of [traverse] up to the recursive call. *)
Definition visit (module_path : string) (module_data : ModuleData)
    (parent_path : option string) (lvl : nat) (result : ParsedTree) : ParsedTree :=
  let leaf := Nat.eqb (List.length (md_children module_data)) 0 in
  let info := mkParsedModule module_path (md_components module_data)
                (md_children module_data) parent_path leaf lvl in
  mkParsedTree
    (dict_set module_path info (modules result))
    (if leaf then leaf_modules result ++ [module_path] else leaf_modules result)
    (if leaf then parent_modules result else parent_modules result ++ [module_path])
    (match parent_path with
     | None => root_modules result ++ [module_path]
     | Some _ => root_modules result
     end)
    (fold_left (fun c2m component_id => dict_set component_id module_path c2m)
       (md_components module_data) (component_to_module result)).

Fixpoint traverse_module (module_path : string) (module_data : ModuleData)
    (parent_path : option string) (lvl : nat) (result : ParsedTree)
    {struct module_data} : ParsedTree :=
  let result := visit module_path module_data parent_path lvl result in
  match module_data with
  | mkModuleData _ kids =>
      if nonempty kids then
        (fix traverse_items (items : list (string * ModuleData)) (result : ParsedTree)
           : ParsedTree :=
           match items with
           | [] => result
           | (p, d) :: rest =>
               traverse_items rest (traverse_module p d (Some module_path) (S lvl) result)
           end) kids result
      else result
  end.

Fixpoint traverse (modules_dict : dict ModuleData) (parent_path : option string)
    (lvl : nat) (result : ParsedTree) : ParsedTree :=
  match modules_dict with
  | [] => result
  | (module_path, module_data) :: rest =>
      traverse rest parent_path lvl
        (traverse_module module_path module_data parent_path lvl result)
  end.

Definition parse_module_tree (tree : dict ModuleData) : ParsedTree :=
  traverse tree None 0 empty_result.

(** ** get_processing_order

    The test [if not self.parsed_tree] never holds, so the tree is not
    parsed again. *)

Definition level_modules (pt : ParsedTree) (lvl : nat) : list string :=
  map fst (filter (fun kv => Nat.eqb (level (snd kv)) lvl) (modules pt)).

Definition get_processing_order_of (pt : ParsedTree) : outcome (list (list string)) :=
  match py_max (map level (dict_values (modules pt))) with
  | Raised e => Raised e
  | Returned max_level =>
      Returned
        (fold_left
           (fun order lvl =>
              let ms := level_modules pt lvl in
              if nonempty ms then order ++ [ms] else order)
           (range_down max_level) [])
  end.

(** ** build_component_map

    The second loop runs under [if self.parsed_tree], which always holds. *)

Definition new_record (comp_id : string) (comp_data : CompData) : ComponentRecord :=
  mkComponentRecord
    (py_get (cd_id comp_data) comp_id)
    (py_get (cd_name comp_data) (last (split_dot comp_id) EmptyString))
    (py_get (cd_component_type comp_data) "unknown")
    (py_get (cd_file_path comp_data) "")
    (py_get (cd_relative_path comp_data) "")
    (py_get (cd_depends_on comp_data) [])
    []
    None
    (List.length (py_get (cd_depends_on comp_data) []))
    0.

Definition set_module (m : option string) (r : ComponentRecord) : ComponentRecord :=
  mkComponentRecord (cid r) (name r) (component_type r) (file_path r)
    (relative_path r) (depends_on r) (depended_by r) m
    (dependency_count r) (dependent_count r).

Definition build_component_map (graph : dict CompData) (pt : ParsedTree)
  : dict ComponentRecord :=
  let comp_map :=
    fold_left (fun cm kv => dict_set (fst kv) (new_record (fst kv) (snd kv)) cm)
      graph [] in
  fold_left
    (fun cm comp_id =>
       match dict_get comp_id (component_to_module pt), dict_get comp_id cm with
       | Some m, Some r => dict_set comp_id (set_module (Some m) r) cm
       | _, _ => cm
       end)
    (dict_keys comp_map) comp_map.

(** ** _build_reverse_dependencies *)

Definition set_depended_by (dependents : list string) (r : ComponentRecord)
  : ComponentRecord :=
  mkComponentRecord (cid r) (name r) (component_type r) (file_path r)
    (relative_path r) (depends_on r) dependents (module r)
    (dependency_count r) (List.length dependents).

Definition reverse_index (cm : dict ComponentRecord) : dict (list string) :=
  fold_left
    (fun reverse kv =>
       fold_left (fun reverse dep_id => dd_append dep_id (fst kv) reverse)
         (depends_on (snd kv)) reverse)
    cm [].

Definition attach_dependents (reverse : dict (list string))
    (cm : dict ComponentRecord) : dict ComponentRecord :=
  fold_left
    (fun cm kv =>
       match dict_get (fst kv) cm with
       | Some r => dict_set (fst kv) (set_depended_by (snd kv) r) cm
       | None => cm
       end)
    reverse cm.

(** Returns the mutated component map together with the reverse map. *)
Definition build_reverse_dependencies (cm : dict ComponentRecord)
  : dict ComponentRecord * dict (list string) :=
  if nonempty cm then
    let reverse := reverse_index cm in
    (attach_dependents reverse cm, reverse)
  else (cm, []).

(** ** __init__ / _parse *)

Definition init (tree : dict ModuleData) (graph : dict CompData) : Analyzer :=
  let pt := parse_module_tree tree in
  let cm := build_component_map graph pt in
  let '(cm', reverse) := build_reverse_dependencies cm in
  mkAnalyzer tree graph pt cm' reverse.

Definition get_processing_order (self : Analyzer) : outcome (list (list string)) :=
  get_processing_order_of (parsed_tree self).

(** ** Query results *)

(** A returned mapping that is either [{"error": msg}] or the full record. *)
Inductive result (A : Type) : Type :=
| Error (error : string)
| Ok (a : A).
Arguments Error {A} error.
Arguments Ok {A} a.

(** [dep_info]; the key ["module"] is only set on external entries. *)
Record DepInfo : Type := mkDepInfo {
  di_id : string;
  di_name : string;
  di_type : string;
  di_module : option (option string)
}.

Record DependencyAnalysis : Type := mkDependencyAnalysis {
  da_error : option string;
  internal_dependencies : list DepInfo;
  external_dependencies : list DepInfo;
  internal_dependents : list DepInfo;
  external_dependents : list DepInfo;
  dependency_modules : list string;
  dependent_modules : list string
}.

(** [{"from": .., "to": .., "type": ..}] *)
Record Edge : Type := mkEdge {
  edge_from : string;
  edge_to : string;
  edge_type : string
}.

Record Relationship : Type := mkRelationship {
  from_component : string;
  to_component : string
}.

(** [{"target_module" | "source_module": mod, "relationships": rels}] *)
Record ModuleGroup : Type := mkModuleGroup {
  group_module : string;
  relationships : list Relationship
}.

Record Complexity : Type := mkComplexity {
  component_count : nat;
  internal_edge_count : nat;
  external_edge_count : nat;
  cohesion_score : Q
}.

Record ModuleAnalysis : Type := mkModuleAnalysis {
  ma_module : string;
  ma_components : list string;
  ma_internal_dependencies : list Edge;
  ma_external_dependencies : list ModuleGroup;
  ma_external_dependents : list ModuleGroup;
  ma_complexity : Complexity
}.

Record Metrics : Type := mkMetrics {
  m_dependencies : nat;
  m_dependents : nat;
  m_type : string
}.

Record Purpose : Type := mkPurpose {
  primary_purpose : string;
  role : string;
  confidence : Q;
  reasoning : list string;
  metrics : Metrics
}.

Record Summary : Type := mkSummary {
  s_path : string;
  s_component_count : nat;
  s_is_leaf : bool;
  s_level : nat;
  s_has_children : bool
}.

Record ComponentReport : Type := mkComponentReport {
  cr_info : ComponentRecord;
  cr_dependencies : DependencyAnalysis;
  cr_purpose : result Purpose
}.

Record Report : Type := mkReport {
  r_module : string;
  r_summary : Summary;
  r_dependencies : list ModuleGroup;
  r_dependents : list ModuleGroup;
  r_complexity : option Complexity;
  r_components : dict ComponentReport
}.

Record RepositorySummary : Type := mkRepositorySummary {
  total_modules : nat;
  n_leaf_modules : nat;
  n_parent_modules : nat;
  n_root_modules : nat;
  total_components : nat;
  max_depth : nat;
  processing_order_levels : nat
}.

(** ** analyze_dependencies *)

(** One iteration of either loop of [analyze_dependencies]; the state is
    the internal list, the external list and the set of modules. *)
Definition classify_step (cm : dict ComponentRecord) (comp_module : option string)
    (st : list DepInfo * list DepInfo * list string) (dep_id : string)
  : list DepInfo * list DepInfo * list string :=
  let '(internal, external, mods) := st in
  match dict_get dep_id cm with
  | None => st
  | Some dep_comp =>
      if opt_eqb (module dep_comp) comp_module then
        (internal ++ [mkDepInfo dep_id (name dep_comp) (component_type dep_comp) None],
         external, mods)
      else
        (internal,
         external ++ [mkDepInfo dep_id (name dep_comp) (component_type dep_comp)
                        (Some (module dep_comp))],
         match module dep_comp with
         | Some m => if truthy (Some m) then set_add m mods else mods
         | None => mods
         end)
  end.

Definition classify (cm : dict ComponentRecord) (comp_module : option string)
    (ids : list string) : list DepInfo * list DepInfo * list string :=
  fold_left (classify_step cm comp_module) ids ([], [], []).

Definition analyze_dependencies (self : Analyzer) (component_id : string)
  : DependencyAnalysis :=
  let cm := component_map self in
  if negb (nonempty cm) || negb (dict_mem component_id cm) then
    mkDependencyAnalysis
      (Some ("Component " ++ component_id ++ " not found")%string) [] [] [] [] [] []
  else
    match dict_get component_id cm with
    | None =>
        mkDependencyAnalysis
          (Some ("Component " ++ component_id ++ " not found")%string) [] [] [] [] [] []
    | Some comp_info =>
        let comp_module := module comp_info in
        let '(internal_deps, external_deps, dep_modules) :=
          classify cm comp_module (depends_on comp_info) in
        let '(internal_dependents, external_dependents, dependent_modules) :=
          classify cm comp_module (depended_by comp_info) in
        mkDependencyAnalysis None internal_deps external_deps
          internal_dependents external_dependents dep_modules dependent_modules
    end.

(** ** analyze_module_dependencies *)

Definition module_dep_step (cm : dict ComponentRecord) (module_path comp_id : string)
    (st : list Edge * dict (list Relationship)) (dep_id : string)
  : list Edge * dict (list Relationship) :=
  let '(internal_deps, external_deps_by_module) := st in
  match dict_get dep_id cm with
  | None => st
  | Some dep_comp =>
      let dep_module := module dep_comp in
      if opt_eqb dep_module (Some module_path) then
        (internal_deps ++ [mkEdge comp_id dep_id "depends_on"], external_deps_by_module)
      else
        match dep_module with
        | Some m =>
            if truthy dep_module then
              (internal_deps,
               dd_append m (mkRelationship comp_id dep_id) external_deps_by_module)
            else st
        | None => st
        end
  end.

Definition module_dependent_step (cm : dict ComponentRecord)
    (module_path comp_id : string)
    (external_dependents_by_module : dict (list Relationship)) (dependent_id : string)
  : dict (list Relationship) :=
  match dict_get dependent_id cm with
  | None => external_dependents_by_module
  | Some dependent_comp =>
      match module dependent_comp with
      | Some m =>
          if truthy (Some m) && negb (opt_eqb (Some m) (Some module_path)) then
            dd_append m (mkRelationship dependent_id comp_id)
              external_dependents_by_module
          else external_dependents_by_module
      | None => external_dependents_by_module
      end
  end.

Definition module_comp_step (cm : dict ComponentRecord) (module_path : string)
    (st : list Edge * dict (list Relationship) * dict (list Relationship))
    (comp_id : string)
  : list Edge * dict (list Relationship) * dict (list Relationship) :=
  let '(deps, external_dependents_by_module) := st in
  if negb (nonempty cm) || negb (dict_mem comp_id cm) then st
  else
    match dict_get comp_id cm with
    | None => st
    | Some comp_info =>
        (fold_left (module_dep_step cm module_path comp_id)
           (depends_on comp_info) deps,
         fold_left (module_dependent_step cm module_path comp_id)
           (depended_by comp_info) external_dependents_by_module)
    end.

Definition groups (by_module : dict (list Relationship)) : list ModuleGroup :=
  map (fun kv => mkModuleGroup (fst kv) (snd kv)) by_module.

(** [sum(len(d["relationships"]) for d in gs)] *)
Definition count_relationships (gs : list ModuleGroup) : nat :=
  fold_left (fun acc d => acc + List.length (relationships d)) gs 0.

Definition cohesion (internal_edges total_edges : nat) : Q :=
  if Nat.ltb 0 total_edges
  then (inject_Z (Z.of_nat internal_edges) / inject_Z (Z.of_nat total_edges))%Q
  else 0%Q.

Definition analyze_module_dependencies (self : Analyzer) (module_path : string)
  : result ModuleAnalysis :=
  match dict_get module_path (modules (parsed_tree self)) with
  | None => Error ("Module " ++ module_path ++ " not found")%string
  | Some module_info =>
      let comps := components module_info in
      let '(internal_deps, external_deps_by_module, external_dependents_by_module) :=
        fold_left (module_comp_step (component_map self) module_path) comps
          ([], [], []) in
      let external_deps := groups external_deps_by_module in
      let external_dependents := groups external_dependents_by_module in
      let external_edges := count_relationships external_deps in
      let internal_edges := List.length internal_deps in
      let total_edges := internal_edges + external_edges in
      Ok (mkModuleAnalysis module_path comps internal_deps external_deps
            external_dependents
            (mkComplexity (List.length comps) internal_edges external_edges
               (cohesion internal_edges total_edges)))
  end.

(** ** infer_component_purpose *)

Definition role_patterns : list (string * (string * Q * string)) :=
  [ ("manager", ("manager", 8 # 10, "manages resources or lifecycle"));
    ("service", ("service", 8 # 10, "provides business logic"));
    ("generator", ("generator", 8 # 10, "object creation or construction"));
    ("builder", ("generator", 8 # 10, "object creation or construction"));
    ("analyzer", ("analyzer", 8 # 10, "data analysis or transformation"));
    ("parser", ("analyzer", 8 # 10, "data analysis or transformation"));
    ("handler", ("processor", 7 # 10, "event handling or data processing"));
    ("processor", ("processor", 7 # 10, "event handling or data processing"));
    ("adapter", ("adapter", 8 # 10, "interface adaptation or wrapping"));
    ("wrapper", ("adapter", 8 # 10, "interface adaptation or wrapping"));
    ("model", ("model", 7 # 10, "data structure or entity"));
    ("entity", ("model", 7 # 10, "data structure or entity"));
    ("dto", ("model", 7 # 10, "data structure or entity"));
    ("util", ("utility", 7 # 10, "helper functions"));
    ("helper", ("utility", 7 # 10, "helper functions"));
    ("config", ("configuration", 8 # 10, "configuration management"));
    ("settings", ("configuration", 8 # 10, "configuration management")) ]%Q.

Definition quote : string := String (ascii_of_nat 34) EmptyString.

Definition name_note (pattern desc : string) : string :=
  ("Name contains " ++ quote ++ pattern ++ quote ++ " - likely " ++ desc)%string.

Definition no_dependencies_note : string :=
  "No dependencies - likely a data model, constant, or utility".

Definition many_dependencies_note (dep_count : nat) : string :=
  ("Many dependencies (" ++ str_of_nat dep_count
   ++ ") - likely an orchestrator or controller")%string.

Definition no_dependents_note : string :=
  "No dependents - possibly an entry point or unused component".

Definition many_dependents_note (dependent_count : nat) : string :=
  ("Many dependents (" ++ str_of_nat dependent_count
   ++ ") - likely a core/shared component")%string.

Definition generate_purpose_description (name role comp_type : string)
    (dep_count dependent_count : nat) : string :=
  let role_descriptions : dict string :=
    [ ("manager", (name ++ " manages lifecycle and resources")%string);
      ("service", (name ++ " provides business logic and operations")%string);
      ("generator", (name ++ " creates or constructs objects/data")%string);
      ("analyzer", (name ++ " analyzes or transforms data")%string);
      ("processor", (name ++ " processes data or handles events")%string);
      ("adapter", (name ++ " adapts or wraps external interfaces")%string);
      ("model", (name ++ " represents data structure or entity")%string);
      ("utility", (name ++ " provides helper functions")%string);
      ("configuration", (name ++ " manages configuration settings")%string);
      ("controller", (name ++ " orchestrates operations")%string);
      ("unknown", (name ++ " (" ++ comp_type ++ ")")%string) ] in
  py_get (dict_get role role_descriptions)
    (py_get (dict_get "unknown" role_descriptions) "").

Definition infer_component_purpose (self : Analyzer) (component_id : string)
  : result Purpose :=
  let cm := component_map self in
  if negb (nonempty cm) || negb (dict_mem component_id cm) then
    Error ("Component " ++ component_id ++ " not found")%string
  else
    match dict_get component_id cm with
    | None => Error ("Component " ++ component_id ++ " not found")%string
    | Some comp_info =>
        let name := name comp_info in
        let comp_type := component_type comp_info in
        let dep_count := dependency_count comp_info in
        let dependent_count := dependent_count comp_info in
        let name_lower := lower name in
        let '(role, confidence, reasoning) :=
          match find (fun p => str_in (fst p) name_lower) role_patterns with
          | Some (pattern, (r, c, desc)) => (r, c, [name_note pattern desc])
          | None => ("unknown", (5 # 10)%Q, [])
          end in
        let '(role, confidence, reasoning) :=
          if Nat.eqb dep_count 0 then
            (if String.eqb role "unknown" then ("model", (6 # 10)%Q)
             else (role, confidence),
             reasoning ++ [no_dependencies_note])
          else if Nat.ltb 10 dep_count then
            (if String.eqb role "unknown" then ("controller", (6 # 10)%Q)
             else (role, confidence),
             reasoning ++ [many_dependencies_note dep_count])
          else (role, confidence, reasoning) in
        let reasoning :=
          if Nat.eqb dependent_count 0 then reasoning ++ [no_dependents_note]
          else if Nat.ltb 10 dependent_count then
            reasoning ++ [many_dependents_note dependent_count]
          else reasoning in
        let purpose :=
          generate_purpose_description name role comp_type dep_count dependent_count in
        Ok (mkPurpose purpose role confidence reasoning
              (mkMetrics dep_count dependent_count comp_type))
    end.

(** ** generate_analysis_report *)

Definition generate_analysis_report (self : Analyzer) (module_path : string)
  : result Report :=
  match dict_get module_path (modules (parsed_tree self)) with
  | None => Error ("Module " ++ module_path ++ " not found")%string
  | Some module_info =>
      let module_analysis := analyze_module_dependencies self module_path in
      let cm := component_map self in
      let comps :=
        fold_left
          (fun acc comp_id =>
             if negb (nonempty cm) || negb (dict_mem comp_id cm) then acc
             else
               match dict_get comp_id cm with
               | None => acc
               | Some info =>
                   dict_set comp_id
                     (mkComponentReport info (analyze_dependencies self comp_id)
                        (infer_component_purpose self comp_id))
                     acc
               end)
          (components module_info) [] in
      Ok (mkReport module_path
            (mkSummary module_path (List.length (components module_info))
               (is_leaf module_info) (level module_info)
               (Nat.ltb 0 (List.length (children module_info))))
            (match module_analysis with
             | Ok a => ma_external_dependencies a
             | Error _ => []
             end)
            (match module_analysis with
             | Ok a => ma_external_dependents a
             | Error _ => []
             end)
            (match module_analysis with
             | Ok a => Some (ma_complexity a)
             | Error _ => None
             end)
            comps)
  end.

(** ** get_repository_summary

    Of the guard [not self.parsed_tree or not self.component_map] only the
    second test can hold.  The entries of the returned mapping are
    evaluated in order, so [max] is reached before the processing order. *)

Definition get_repository_summary (self : Analyzer)
  : outcome (result RepositorySummary) :=
  let pt := parsed_tree self in
  if negb (nonempty (component_map self)) then Returned (Error "Data not parsed")
  else
    match py_max (map level (dict_values (modules pt))) with
    | Raised e => Raised e
    | Returned depth =>
        match get_processing_order self with
        | Raised e => Raised e
        | Returned order =>
            Returned
              (Ok (mkRepositorySummary
                     (List.length (modules pt))
                     (List.length (leaf_modules pt))
                     (List.length (parent_modules pt))
                     (List.length (root_modules pt))
                     (List.length (component_map self))
                     depth
                     (List.length order)))
        end
    end.

(** ** Auxiliary notions used to state the properties *)

(** What one [depends_on] / [depended_by] id contributes to the internal
    list, resp. the external list, of [analyze_dependencies]. *)
Definition internal_entry (cm : dict ComponentRecord) (comp_module : option string)
    (dep_id : string) : list DepInfo :=
  match dict_get dep_id cm with
  | Some c =>
      if opt_eqb (module c) comp_module
      then [mkDepInfo dep_id (name c) (component_type c) None] else []
  | None => []
  end.

Definition external_entry (cm : dict ComponentRecord) (comp_module : option string)
    (dep_id : string) : list DepInfo :=
  match dict_get dep_id cm with
  | Some c =>
      if opt_eqb (module c) comp_module then []
      else [mkDepInfo dep_id (name c) (component_type c) (Some (module c))]
  | None => []
  end.

(** The pairs [(comp_id, dep_id)] visited by the dependency loop of
    [analyze_module_dependencies], in order. *)
Definition module_pairs (cm : dict ComponentRecord) (comps : list string)
  : list (string * string) :=
  flat_map
    (fun comp_id =>
       match dict_get comp_id cm with
       | Some comp_info => map (pair comp_id) (depends_on comp_info)
       | None => []
       end)
    comps.

(** One iteration of that loop, on a pair. *)
Definition pair_step (cm : dict ComponentRecord) (module_path : string)
    (st : list Edge * dict (list Relationship)) (p : string * string)
  : list Edge * dict (list Relationship) :=
  module_dep_step cm module_path (fst p) st (snd p).

(** [x] is in the list stored under key [m]. *)
Definition grouped_in {A : Type} (d : dict (list A)) (m : string) (x : A) : Prop :=
  exists l, dict_get m d = Some l /\ In x l.

(** A dependency edge [comp_id -> dep_id] whose source is listed by the
    module [module_path] and whose two ends are in the component map;
    [dep_module] is the module of the target. *)
Definition module_edge (self : Analyzer) (module_path comp_id dep_id : string)
    (dep_module : option string) : Prop :=
  exists module_info comp_info dep_comp,
    dict_get module_path (modules (parsed_tree self)) = Some module_info
    /\ In comp_id (components module_info)
    /\ dict_get comp_id (component_map self) = Some comp_info
    /\ In dep_id (depends_on comp_info)
    /\ dict_get dep_id (component_map self) = Some dep_comp
    /\ module dep_comp = dep_module.

Definition internal_edge_recorded (a : ModuleAnalysis) (comp_id dep_id : string) : Prop :=
  In (mkEdge comp_id dep_id "depends_on") (ma_internal_dependencies a).

Definition external_edge_recorded (a : ModuleAnalysis) (m comp_id dep_id : string)
  : Prop :=
  exists g, In g (ma_external_dependencies a)
            /\ group_module g = m
            /\ In (mkRelationship comp_id dep_id) (relationships g).

(** "No in-map edge from the module's components is omitted from both
    classifications." *)
Definition every_module_edge_classified (self : Analyzer) (module_path : string)
  : Prop :=
  forall a comp_id dep_id dep_module,
    analyze_module_dependencies self module_path = Ok a ->
    module_edge self module_path comp_id dep_id dep_module ->
    internal_edge_recorded a comp_id dep_id
    \/ exists m, external_edge_recorded a m comp_id dep_id.

(** The calls of the loop body of [traverse], in execution order: the
    module visited, its data, and the parent path and level it is visited
    with. *)
Record Visit : Type := mkVisit {
  v_path : string;
  v_data : ModuleData;
  v_parent : option string;
  v_level : nat
}.

Fixpoint visits_module (module_path : string) (module_data : ModuleData)
    (parent_path : option string) (lvl : nat) {struct module_data} : list Visit :=
  mkVisit module_path module_data parent_path lvl ::
  match module_data with
  | mkModuleData _ kids =>
      (fix visits_items (items : list (string * ModuleData)) : list Visit :=
         match items with
         | [] => []
         | (p, d) :: rest =>
             visits_module p d (Some module_path) (S lvl) ++ visits_items rest
         end) kids
  end.

Fixpoint visits (modules_dict : dict ModuleData) (parent_path : option string)
    (lvl : nat) : list Visit :=
  match modules_dict with
  | [] => []
  | (module_path, module_data) :: rest =>
      visits_module module_path module_data parent_path lvl
      ++ visits rest parent_path lvl
  end.

Definition apply_visit (result : ParsedTree) (v : Visit) : ParsedTree :=
  visit (v_path v) (v_data v) (v_parent v) (v_level v) result.

(** The record stored for a visit. *)
Definition info_of (v : Visit) : ParsedModule :=
  mkParsedModule (v_path v) (md_components (v_data v)) (md_children (v_data v))
    (v_parent v) (Nat.eqb (List.length (md_children (v_data v))) 0) (v_level v).

(** The write to [result["modules"]] made by a visit. *)
Definition store_visit (d : dict ParsedModule) (v : Visit) : dict ParsedModule :=
  dict_set (v_path v) (info_of v) d.

Definition is_none {A : Type} (o : option A) : bool :=
  match o with None => true | Some _ => false end.

(** All module paths of the tree, at every depth, in traversal order. *)
Definition tree_paths (tree : dict ModuleData) : list string :=
  map v_path (visits tree None 0).

(** No module path occurs twice in the tree. *)
Definition unique_paths (tree : dict ModuleData) : Prop :=
  NoDup (tree_paths tree).

(** The invariant of the parsed modules: leaf flag, roots, levels. *)
Definition module_tree_invariant (pt : ParsedTree) : Prop :=
  forall p info,
    dict_get p (modules pt) = Some info ->
    (is_leaf info = true <-> children info = [])
    /\ (parent info = None <-> In p (root_modules pt))
    /\ (In p (root_modules pt) -> level info = 0)
    /\ (forall q, parent info = Some q ->
          exists qinfo, dict_get q (modules pt) = Some qinfo
                        /\ level info = S (level qinfo)).

(** [d] is a descendant of [m]: following [parent] from [d] reaches [m]. *)
Inductive descendant (pt : ParsedTree) : string -> string -> Prop :=
| descendant_child d m info :
    dict_get d (modules pt) = Some info -> parent info = Some m ->
    descendant pt d m
| descendant_step d c m info :
    dict_get d (modules pt) = Some info -> parent info = Some c ->
    descendant pt c m -> descendant pt d m.

(** [d] is in a batch strictly before a batch containing [m]. *)
Definition earlier_batch (order : list (list string)) (d m : string) : Prop :=
  exists i j bi bj,
    nth_error order i = Some bi /\ In d bi
    /\ nth_error order j = Some bj /\ In m bj
    /\ i < j.

Definition descendants_first (pt : ParsedTree) (order : list (list string)) : Prop :=
  forall d m, descendant pt d m -> earlier_batch order d m.

(** "For every module its level equals the index of its batch." *)
Definition level_is_batch_index (pt : ParsedTree) (order : list (list string)) : Prop :=
  forall i b p info,
    nth_error order i = Some b -> In p b ->
    dict_get p (modules pt) = Some info ->
    level info = i.

(** [lvl] is the deepest level of the parsed modules. *)
Definition deepest_level (pt : ParsedTree) (lvl : nat) : Prop :=
  (exists p info, dict_get p (modules pt) = Some info /\ level info = lvl)
  /\ forall p info, dict_get p (modules pt) = Some info -> level info <= lvl.

Definition raises {A : Type} (o : outcome A) : Prop := exists e, o = Raised e.

(** ** Example inputs *)

Definition comp_with_deps (deps : list string) : CompData :=
  mkCompData None None None None None (Some deps).

(** One module owning [m.A]; [m.A] depends on [B], which no module lists. *)
Definition unassigned_tree : dict ModuleData :=
  [("m", mkModuleData ["m.A"] [])].

Definition unassigned_graph : dict CompData :=
  [("m.A", comp_with_deps ["B"]); ("B", comp_with_deps [])].

(** The scenario of the specification: module [a] with child [a/b]. *)
Definition scenario_tree : dict ModuleData :=
  [("a", mkModuleData ["a.X"] [("a/b", mkModuleData ["a.b.Y"] [])])].

Definition scenario_graph : dict CompData :=
  [("a.X", comp_with_deps ["a.b.Y"]); ("a.b.Y", comp_with_deps [])].

(** A path that occurs twice: [a] is a root and also a grandchild of itself. *)
Definition repeated_path_tree : dict ModuleData :=
  [("a", mkModuleData [] [("b", mkModuleData [] [("a", mkModuleData [] [])])])].

(** A record as [build_component_map] creates it: no dependents yet. *)
Definition fresh_record (r : ComponentRecord) : Prop :=
  depended_by r = []
  /\ dependent_count r = 0
  /\ dependency_count r = List.length (depends_on r).

Definition fresh_map (cm : dict ComponentRecord) : Prop :=
  NoDup (dict_keys cm)
  /\ forall k r, dict_get k cm = Some r -> fresh_record r.

(** [reverse[b]], the empty list when the key is absent. *)
Definition dependents_of (reverse : dict (list string)) (b : string) : list string :=
  py_get (dict_get b reverse) [].

(** [c] depends on [a] twice and on a component outside the graph. *)
Definition duplicate_edge_graph : dict CompData :=
  [("a", comp_with_deps []); ("c", comp_with_deps ["a"; "a"; "ghost"])].

(** A note about the number of dependents, as [infer_component_purpose]
    words them. *)
Definition is_dependents_note (s : string) : bool :=
  String.prefix "No dependents" s || String.prefix "Many dependents" s.

(** The scenario "UserManager, 0 dependencies, 3 dependents", read with a
    dependents-count note in the reasoning. *)
Definition user_manager_scenario (self : Analyzer) (component_id : string) : Prop :=
  forall info,
    dict_get component_id (component_map self) = Some info ->
    name info = "UserManager" ->
    dependency_count info = 0 ->
    dependent_count info = 3 ->
    exists p,
      infer_component_purpose self component_id = Ok p
      /\ role p = "manager"
      /\ confidence p = (8 # 10)%Q
      /\ existsb is_dependents_note (reasoning p) = true.

(** [app.UserManager] depends on nothing; three components depend on it. *)
Definition user_manager_graph : dict CompData :=
  [("app.UserManager", comp_with_deps []);
   ("app.Login", comp_with_deps ["app.UserManager"]);
   ("app.Signup", comp_with_deps ["app.UserManager"]);
   ("app.Admin", comp_with_deps ["app.UserManager"])].

(** Two components of one module that depend on each other. *)
Definition mutual_tree : dict ModuleData :=
  [("m", mkModuleData ["m.A"; "m.B"] [])].

Definition mutual_graph : dict CompData :=
  [("m.A", comp_with_deps ["m.B"]); ("m.B", comp_with_deps ["m.A"])].

(** * Further code: the callers in [orchestrator.py]

    The orchestrator holds an analyzer ([self.analyzer]); the functions
    below take it as argument.  Writing files and printing are outside the
    model, so only the functions that compute on the analyzer's structures
    or on text are embedded. *)

From Stdlib Require Import Sorting.Sorted.

(** A subscript [d[k]] that may raise [KeyError]. *)
Inductive keyed (A : Type) : Type :=
| Value (a : A)
| KeyError (key : string).
Arguments Value {A} a.
Arguments KeyError {A} key.

(** [_get_child_modules]: [list(module_info["children"].keys())]. *)
Definition get_child_modules (analyzer : Analyzer) (module_path : string)
  : keyed (list string) :=
  match dict_get module_path (modules (parsed_tree analyzer)) with
  | None => KeyError module_path
  | Some module_info => Value (dict_keys (children module_info))
  end.

(** ** Notions used to state the further properties *)

(** Module [m], somewhere in the tree, lists component [c]. *)
Definition lists_component (tree : dict ModuleData) (m c : string) : Prop :=
  exists v, In v (visits tree None 0) /\ v_path v = m
            /\ In c (md_components (v_data v)).

(** The writes to [component_to_module], in execution order. *)
Definition module_listings (tree : dict ModuleData) : list (string * string) :=
  flat_map (fun v => map (fun c => (c, v_path v)) (md_components (v_data v)))
    (visits tree None 0).

(** Two roots, one of them with a child and a grandchild. *)
Definition forest_tree : dict ModuleData :=
  [("core", mkModuleData ["core.Engine"]
              [("core/io", mkModuleData ["core.io.Reader"; "core.io.Writer"]
                             [("core/io/net", mkModuleData [] [])])]);
   ("cli", mkModuleData ["cli.Main"] [])].

(** The map built by the first loop of [build_component_map]. *)
Definition first_pass (graph : dict CompData) : dict ComponentRecord :=
  fold_left (fun cm kv => dict_set (fst kv) (new_record (fst kv) (snd kv)) cm)
    graph [].

(** A component listed by two modules, and one listed by none. *)
Definition shared_component_tree : dict ModuleData :=
  [("first", mkModuleData ["shared.C"; "first.A"] []);
   ("second", mkModuleData ["shared.C"] [])].

Definition shared_component_graph : dict CompData :=
  [("shared.C", comp_with_deps []);
   ("first.A", comp_with_deps ["shared.C"; "missing.Z"; "shared.C"]);
   ("free.F", mkCompData (Some "F-id") (Some "Free") (Some "function")
                (Some "/src/free.py") (Some "free.py") None)].

(** The modules added to the module set by one loop of
    [analyze_dependencies], in order. *)
Definition external_modules (cm : dict ComponentRecord) (comp_module : option string)
    (ids : list string) : list string :=
  flat_map
    (fun dep_id =>
       match dict_get dep_id cm with
       | Some c =>
           if opt_eqb (module c) comp_module then []
           else match module c with
                | Some m => if truthy (Some m) then [m] else []
                | None => []
                end
       | None => []
       end)
    ids.

(** Strictly increasing in the order of [sorted] on strings. *)
Definition increasing (l : list string) : Prop :=
  StronglySorted (fun a b => String.compare a b = Lt) l.

(** Components of three modules around [hub.H]. *)
Definition hub_tree : dict ModuleData :=
  [("hub", mkModuleData ["hub.H"; "hub.Helper"] []);
   ("zeta", mkModuleData ["zeta.Z"] []);
   ("alpha", mkModuleData ["alpha.A"; "alpha.B"] [])].

Definition hub_graph : dict CompData :=
  [("hub.H", comp_with_deps ["zeta.Z"; "alpha.A"; "hub.Helper"; "alpha.B"; "ext.X"]);
   ("hub.Helper", comp_with_deps []);
   ("zeta.Z", comp_with_deps ["hub.H"]);
   ("alpha.A", comp_with_deps ["hub.H"; "hub.Helper"]);
   ("alpha.B", comp_with_deps []);
   ("loose.L", comp_with_deps ["hub.H"])].

(** A loop that appends to a [defaultdict(list)]: [key x] is the key and
    the value appended for [x], if any. *)
Definition group_step {X R : Type} (key : X -> option (string * R))
    (d : dict (list R)) (x : X) : dict (list R) :=
  match key x with
  | Some (m, r) => dd_append m r d
  | None => d
  end.

(** What the dependency loop of [analyze_module_dependencies] appends to
    [external_deps_by_module] for the pair [(comp_id, dep_id)]. *)
Definition dep_key (cm : dict ComponentRecord) (module_path : string)
    (p : string * string) : option (string * Relationship) :=
  match dict_get (snd p) cm with
  | Some dep_comp =>
      if opt_eqb (module dep_comp) (Some module_path) then None
      else match module dep_comp with
           | Some m =>
               if truthy (Some m) then Some (m, mkRelationship (fst p) (snd p))
               else None
           | None => None
           end
  | None => None
  end.

(** The same for the dependents loop and the pair [(comp_id, dependent_id)]. *)
Definition dependent_key (cm : dict ComponentRecord) (module_path : string)
    (p : string * string) : option (string * Relationship) :=
  match dict_get (snd p) cm with
  | Some dependent_comp =>
      match module dependent_comp with
      | Some m =>
          if truthy (Some m) && negb (opt_eqb (Some m) (Some module_path))
          then Some (m, mkRelationship (snd p) (fst p))
          else None
      | None => None
      end
  | None => None
  end.

(** The pairs [(comp_id, dependent_id)] visited by the dependents loop. *)
Definition module_dependent_pairs (cm : dict ComponentRecord) (comps : list string)
  : list (string * string) :=
  flat_map
    (fun comp_id =>
       match dict_get comp_id cm with
       | Some comp_info => map (pair comp_id) (depended_by comp_info)
       | None => []
       end)
    comps.

Definition external_dependent_recorded (a : ModuleAnalysis)
    (m comp_id dependent_id : string) : Prop :=
  exists g, In g (ma_external_dependents a)
            /\ group_module g = m
            /\ In (mkRelationship dependent_id comp_id) (relationships g).

(** The groups of a module analysis are well formed for the queried path. *)
Definition well_formed_groups (module_path : string) (gs : list ModuleGroup) : Prop :=
  NoDup (map group_module gs)
  /\ forall g, In g gs ->
       group_module g <> module_path
       /\ group_module g <> ""
       /\ relationships g <> [].

(** The roles [infer_component_purpose] can return. *)
Definition known_roles : list string :=
  ["manager"; "service"; "generator"; "analyzer"; "processor"; "adapter";
   "model"; "utility"; "configuration"; "controller"; "unknown"].

(** Some fragment of the table occurs in the lower-cased name. *)
Definition name_matches (name : string) : bool :=
  existsb (fun p : string * (string * Q * string) => str_in (fst p) (lower name))
    role_patterns.

(** Components with telling names and many or few connections. *)
Definition roles_graph : dict CompData :=
  [("pkg.ReportBuilder", comp_with_deps ["pkg.Plain"]);
   ("pkg.Plain", comp_with_deps []);
   ("pkg.Busy",
    comp_with_deps ["d1"; "d2"; "d3"; "d4"; "d5"; "d6"; "d7"; "d8"; "d9"; "d10"; "d11"]);
   ("pkg.ServiceManager", comp_with_deps ["pkg.Plain"; "pkg.Busy"])].



(** * Properties *)

(** ** The scenarios of the specification, evaluated *)

Example scenario_modules :
  map (fun kv => (fst kv, parent (snd kv), level (snd kv), is_leaf (snd kv)))
    (modules (parse_module_tree scenario_tree))
  = [("a", None, 0, false); ("a/b", Some "a", 1, true)].
Proof. reflexivity. Qed.

Example scenario_processing_order :
  get_processing_order (init scenario_tree scenario_graph)
  = Returned [["a/b"]; ["a"]].
Proof. reflexivity. Qed.

Example scenario_component_analysis :
  let r := analyze_dependencies (init scenario_tree scenario_graph) "a.X" in
  map di_id (external_dependencies r) = ["a.b.Y"]
  /\ internal_dependencies r = []
  /\ dependency_modules r = ["a/b"].
Proof. repeat split. Qed.

Example mutual_dependency_cohesion :
  exists a,
    analyze_module_dependencies (init mutual_tree mutual_graph) "m" = Ok a
    /\ internal_edge_count (ma_complexity a) = 2
    /\ external_edge_count (ma_complexity a) = 0
    /\ (cohesion_score (ma_complexity a) == 1)%Q.
Proof. eexists. split; [reflexivity|]. repeat split. Qed.

(** ** Dictionaries *)

Section DictFacts.
Context {V : Type}.
Implicit Types (d : dict V) (k : string) (v : V).

Lemma dict_get_set_same d k v : dict_get k (dict_set k v d) = Some v.
Proof.
  induction d as [|[k' v'] d IH]; simpl.
  - now rewrite String.eqb_refl.
  - destruct (String.eqb k k') eqn:E; simpl; rewrite E; auto.
Qed.

Lemma dict_get_set_other d k k' v :
  k' <> k -> dict_get k' (dict_set k v d) = dict_get k' d.
Proof.
  intros Hne. induction d as [|[k0 v0] d IH]; simpl.
  - destruct (String.eqb k' k) eqn:E; auto.
    apply String.eqb_eq in E. contradiction.
  - destruct (String.eqb k k0) eqn:E; simpl.
    + apply String.eqb_eq in E. subst k0.
      destruct (String.eqb k' k) eqn:E'; auto.
      apply String.eqb_eq in E'. contradiction.
    + now rewrite IH.
Qed.

Lemma dict_get_In d k v : dict_get k d = Some v -> In (k, v) d.
Proof.
  induction d as [|[k' v'] d IH]; simpl; [discriminate|].
  destruct (String.eqb k k') eqn:E.
  - apply String.eqb_eq in E. intros [= ->]. subst. now left.
  - intros H. right. auto.
Qed.

Lemma dict_get_None d k : dict_get k d = None <-> ~ In k (dict_keys d).
Proof.
  induction d as [|[k' v'] d IH]; simpl.
  - tauto.
  - destruct (String.eqb k k') eqn:E.
    + apply String.eqb_eq in E. subst. split; [discriminate|]. tauto.
    + apply String.eqb_neq in E. rewrite IH. split.
      * intros H [H1|H1]; [congruence|contradiction].
      * tauto.
Qed.

Lemma dict_get_Some_key d k v : dict_get k d = Some v -> In k (dict_keys d).
Proof.
  intros H. apply dict_get_In in H. unfold dict_keys.
  change k with (fst (k, v)). now apply in_map.
Qed.

Lemma dict_key_get d k : In k (dict_keys d) -> exists v, dict_get k d = Some v.
Proof.
  intros H. destruct (dict_get k d) eqn:E; eauto.
  apply dict_get_None in E. contradiction.
Qed.

Lemma In_dict_get d k v : NoDup (dict_keys d) -> In (k, v) d -> dict_get k d = Some v.
Proof.
  induction d as [|[k' v'] d IH]; simpl; [tauto|].
  intros Hnd [H|H].
  - injection H as -> ->. now rewrite String.eqb_refl.
  - inversion Hnd as [|? ? Hni Hnd']; subst.
    destruct (String.eqb k k') eqn:E.
    + apply String.eqb_eq in E. subst k'. exfalso. apply Hni.
      change k with (fst (k, v)). now apply in_map.
    + auto.
Qed.

Lemma dict_keys_set d k v :
  dict_keys (dict_set k v d)
  = if dict_mem k d then dict_keys d else dict_keys d ++ [k].
Proof.
  unfold dict_mem. induction d as [|[k' v'] d IH]; simpl; auto.
  destruct (String.eqb k k') eqn:E; simpl; auto.
  rewrite IH. now destruct (dict_get k d).
Qed.

Lemma dict_keys_set_In d k v k' :
  In k' (dict_keys (dict_set k v d)) <-> k' = k \/ In k' (dict_keys d).
Proof.
  rewrite dict_keys_set. unfold dict_mem.
  destruct (dict_get k d) eqn:E.
  - apply dict_get_Some_key in E. split; [tauto|]. intros [->|H]; auto.
  - rewrite in_app_iff. simpl. split; intros H.
    + destruct H as [H|[H|[]]]; auto.
    + destruct H as [->|H]; auto.
Qed.

Lemma dict_set_NoDup d k v : NoDup (dict_keys d) -> NoDup (dict_keys (dict_set k v d)).
Proof.
  intros Hnd. rewrite dict_keys_set. unfold dict_mem.
  destruct (dict_get k d) eqn:E; auto.
  apply dict_get_None in E.
  apply NoDup_app; auto.
  - repeat constructor. simpl. tauto.
  - intros x Hx [<-|[]]. contradiction.
Qed.

Lemma dict_mem_true d k : dict_mem k d = true <-> exists v, dict_get k d = Some v.
Proof.
  unfold dict_mem. destruct (dict_get k d); split; eauto; try discriminate.
  intros [v H]. discriminate.
Qed.

End DictFacts.

Create HintDb pydict.
#[local] Hint Resolve dict_set_NoDup dict_get_In dict_get_Some_key In_dict_get
  dict_get_set_same : pydict.
#[local] Hint Constructors NoDup : pydict.

Lemma opt_eqb_eq a b : opt_eqb a b = true <-> a = b.
Proof.
  destruct a as [x|], b as [y|]; simpl; try (split; congruence).
  rewrite String.eqb_eq. split; congruence.
Qed.

Lemma opt_eqb_neq a b : opt_eqb a b = false <-> a <> b.
Proof.
  rewrite <- opt_eqb_eq. destruct (opt_eqb a b); split; congruence.
Qed.

Lemma nonempty_get {V : Type} (d : dict V) k v : dict_get k d = Some v -> nonempty d = true.
Proof. destruct d; [discriminate|reflexivity]. Qed.

(** ** Component-level classification *)

Section Classification.
Variable cm : dict ComponentRecord.
Variable comp_module : option string.


Lemma classify_fold ids : forall st,
  fst (fst (fold_left (classify_step cm comp_module) ids st))
  = fst (fst st) ++ flat_map (internal_entry cm comp_module) ids
  /\ snd (fst (fold_left (classify_step cm comp_module) ids st))
  = snd (fst st) ++ flat_map (external_entry cm comp_module) ids.
Proof.
  induction ids as [|x ids IH]; intros st.
  - simpl. now rewrite !app_nil_r.
  - cbn [fold_left flat_map].
    destruct (IH (classify_step cm comp_module st x)) as [H1 H2].
    rewrite H1, H2. destruct st as [[i e] s].
    unfold classify_step, internal_entry, external_entry.
    destruct (dict_get x cm) as [c|]; simpl; auto.
    destruct (opt_eqb (module c) comp_module); simpl;
      rewrite <- ?app_assoc; simpl; auto.
Qed.

Lemma in_internal_entries ids dep_id :
  In dep_id (map di_id (flat_map (internal_entry cm comp_module) ids)) <->
  In dep_id ids /\ exists c, dict_get dep_id cm = Some c /\ module c = comp_module.
Proof.
  rewrite in_map_iff. split.
  - intros [i [Hid Hin]]. apply in_flat_map in Hin. destruct Hin as [x [Hx Hin]].
    unfold internal_entry in Hin.
    destruct (dict_get x cm) as [c|] eqn:E; [|easy].
    destruct (opt_eqb (module c) comp_module) eqn:Em; [|easy].
    destruct Hin as [<-|[]]. simpl in Hid. subst x. split; auto.
    exists c. split; auto. now apply opt_eqb_eq.
  - intros [Hin [c [Hc Hm]]].
    exists (mkDepInfo dep_id (name c) (component_type c) None). split; auto.
    apply in_flat_map. exists dep_id. split; auto.
    unfold internal_entry. rewrite Hc.
    apply opt_eqb_eq in Hm. rewrite Hm. now left.
Qed.

Lemma in_external_entries ids dep_id :
  In dep_id (map di_id (flat_map (external_entry cm comp_module) ids)) <->
  In dep_id ids /\ exists c, dict_get dep_id cm = Some c /\ module c <> comp_module.
Proof.
  rewrite in_map_iff. split.
  - intros [i [Hid Hin]]. apply in_flat_map in Hin. destruct Hin as [x [Hx Hin]].
    unfold external_entry in Hin.
    destruct (dict_get x cm) as [c|] eqn:E; [|easy].
    destruct (opt_eqb (module c) comp_module) eqn:Em; [easy|].
    destruct Hin as [<-|[]]. simpl in Hid. subst x. split; auto.
    exists c. split; auto. now apply opt_eqb_neq.
  - intros [Hin [c [Hc Hm]]].
    exists (mkDepInfo dep_id (name c) (component_type c) (Some (module c))).
    split; auto.
    apply in_flat_map. exists dep_id. split; auto.
    unfold external_entry. rewrite Hc.
    apply opt_eqb_neq in Hm. rewrite Hm. now left.
Qed.

End Classification.

Lemma analyze_dependencies_found self component_id comp_info :
  dict_get component_id (component_map self) = Some comp_info ->
  let r := analyze_dependencies self component_id in
  da_error r = None
  /\ internal_dependencies r
     = flat_map (internal_entry (component_map self) (module comp_info))
         (depends_on comp_info)
  /\ external_dependencies r
     = flat_map (external_entry (component_map self) (module comp_info))
         (depends_on comp_info)
  /\ internal_dependents r
     = flat_map (internal_entry (component_map self) (module comp_info))
         (depended_by comp_info)
  /\ external_dependents r
     = flat_map (external_entry (component_map self) (module comp_info))
         (depended_by comp_info).
Proof.
  intros Hget. unfold analyze_dependencies.
  rewrite (nonempty_get _ _ _ Hget).
  unfold dict_mem. rewrite Hget. simpl.
  unfold classify.
  pose proof (classify_fold (component_map self) (module comp_info)
                (depends_on comp_info) ([], [], [])) as [H1 H2].
  pose proof (classify_fold (component_map self) (module comp_info)
                (depended_by comp_info) ([], [], [])) as [H3 H4].
  destruct (fold_left _ (depends_on comp_info) _) as [[i e] s].
  destruct (fold_left _ (depended_by comp_info) _) as [[i' e'] s'].
  simpl in *. subst. auto.
Qed.

(** C1. For a component present in the component map, a [depends_on]
    target that is itself in the map is listed as internal exactly when its
    module equals the module of the queried component (two [None] modules
    are equal, hence internal) and as external exactly when the modules
    differ; the same holds for the sources listed in [depended_by]. *)
Theorem analyze_dependencies_classification :
  forall self component_id comp_info,
    dict_get component_id (component_map self) = Some comp_info ->
    let r := analyze_dependencies self component_id in
    da_error r = None
    /\ (forall dep_id dep_comp,
          In dep_id (depends_on comp_info) ->
          dict_get dep_id (component_map self) = Some dep_comp ->
          (In dep_id (map di_id (internal_dependencies r))
             <-> module dep_comp = module comp_info)
          /\ (In dep_id (map di_id (external_dependencies r))
             <-> module dep_comp <> module comp_info)
          /\ (module dep_comp = None -> module comp_info = None ->
              In dep_id (map di_id (internal_dependencies r))))
    /\ (forall dependent_id dependent_comp,
          In dependent_id (depended_by comp_info) ->
          dict_get dependent_id (component_map self) = Some dependent_comp ->
          (In dependent_id (map di_id (internal_dependents r))
             <-> module dependent_comp = module comp_info)
          /\ (In dependent_id (map di_id (external_dependents r))
             <-> module dependent_comp <> module comp_info)
          /\ (module dependent_comp = None -> module comp_info = None ->
              In dependent_id (map di_id (internal_dependents r)))).
Proof.
  intros self component_id comp_info Hget r.
  destruct (analyze_dependencies_found self component_id comp_info Hget)
    as (He & Hi & Hx & Hi' & Hx').
  fold r in He, Hi, Hx, Hi', Hx'.
  split; [exact He|].
  rewrite Hi, Hx, Hi', Hx'.
  split; intros x c Hin Hc;
    rewrite in_internal_entries, in_external_entries;
    (split; [|split]).
  all: try (split; [intros [_ [c' [Hc' Hm]]]; congruence
                   | intros Hm; split; [assumption | exists c; auto]]).
  all: intros H1 H2; split; [assumption | exists c; split; congruence].
Qed.

Lemma analyze_dependencies_classification_witness :
  let self := init scenario_tree scenario_graph in
  let r := analyze_dependencies self "a.X" in
  da_error r = None
  /\ In "a.b.Y" (map di_id (external_dependencies r))
  /\ ~ In "a.b.Y" (map di_id (internal_dependencies r)).
Proof.
  intros self r.
  assert (Hget : dict_get "a.X" (component_map self)
                 = Some (mkComponentRecord "a.X" "X" "unknown" "" "" ["a.b.Y"] []
                           (Some "a") 1 0)) by reflexivity.
  destruct (analyze_dependencies_classification self "a.X" _ Hget) as (He & Hd & _).
  split; [exact He|].
  destruct (Hd "a.b.Y" (mkComponentRecord "a.b.Y" "Y" "unknown" "" "" [] ["a.X"]
                          (Some "a/b") 0 1)) as (Hi & Hx & _).
  - simpl. now left.
  - reflexivity.
  - split.
    + apply Hx. simpl. discriminate.
    + intros H. apply Hi in H. simpl in H. discriminate.
Defined.

(** ** Module-level classification *)

Section Grouping.
Context {A : Type}.

Lemma grouped_in_dd_append (d : dict (list A)) k y m x :
  grouped_in (dd_append k y d) m x <-> grouped_in d m x \/ (m = k /\ x = y).
Proof.
  unfold grouped_in, dd_append.
  destruct (string_dec m k) as [->|Hne].
  - rewrite dict_get_set_same. split.
    + intros [l [[= <-] Hin]]. destruct (dict_get k d) as [l0|].
      * apply in_app_iff in Hin. destruct Hin as [Hin|[<-|[]]]; eauto.
      * destruct Hin as [<-|[]]; auto.
    + intros [[l [Hl Hin]]|[_ ->]].
      * rewrite Hl. eexists; split; eauto. apply in_app_iff; auto.
      * eexists; split; eauto. destruct (dict_get k d); [apply in_app_iff|]; simpl; auto.
  - rewrite dict_get_set_other by assumption. split; [auto|].
    intros [H|[H _]]; [auto|contradiction].
Qed.

Lemma dd_append_NoDup (d : dict (list A)) k y :
  NoDup (dict_keys d) -> NoDup (dict_keys (dd_append k y d)).
Proof. unfold dd_append. auto with pydict. Qed.

End Grouping.

Lemma in_groups (d : dict (list Relationship)) m r :
  NoDup (dict_keys d) ->
  (exists g, In g (groups d) /\ group_module g = m /\ In r (relationships g))
  <-> grouped_in d m r.
Proof.
  intros Hnd. unfold groups, grouped_in. split.
  - intros [g [Hg [Hm Hr]]]. apply in_map_iff in Hg.
    destruct Hg as [[k l] [<- Hin]]. simpl in *. subst k.
    exists l. split; auto. now apply In_dict_get.
  - intros [l [Hl Hr]]. exists (mkModuleGroup m l). simpl. repeat split; auto.
    apply in_map_iff. exists (m, l). split; auto. now apply dict_get_In.
Qed.

Section ModuleEdges.
Variable cm : dict ComponentRecord.
Variable module_path : string.

Lemma module_comp_step_fst comps : forall st,
  fst (fold_left (module_comp_step cm module_path) comps st)
  = fold_left (pair_step cm module_path) (module_pairs cm comps) (fst st).
Proof.
  induction comps as [|c comps IH]; intros st; [reflexivity|].
  cbn [fold_left module_pairs flat_map]. rewrite IH.
  fold (module_pairs cm comps). rewrite fold_left_app. f_equal.
  destruct st as [deps xd]. unfold module_comp_step, dict_mem.
  destruct (dict_get c cm) as [info|] eqn:E.
  - rewrite (nonempty_get _ _ _ E). simpl.
    generalize (depends_on info) deps. clear.
    intros l. induction l as [|d l IHl]; intros deps; simpl; auto.
  - simpl. now rewrite orb_true_r.
Qed.

Lemma pair_step_internal pairs : forall st e,
  In e (fst (fold_left (pair_step cm module_path) pairs st)) <->
  In e (fst st)
  \/ exists c d dc, In (c, d) pairs /\ e = mkEdge c d "depends_on"
       /\ dict_get d cm = Some dc /\ module dc = Some module_path.
Proof.
  induction pairs as [|[c d] pairs IH]; intros st e.
  - simpl. split; [auto|]. intros [H|(?&?&?&[]&_)]. exact H.
  - cbn [fold_left]. rewrite IH. clear IH.
    unfold pair_step. cbn [fst snd]. destruct st as [i x].
    unfold module_dep_step.
    destruct (dict_get d cm) as [dc|] eqn:Ed.
    + destruct (opt_eqb (module dc) (Some module_path)) eqn:Em.
      * apply opt_eqb_eq in Em. cbn [fst]. rewrite in_app_iff. simpl. split.
        -- intros [[H|[<-|[]]]|(c'&d'&dc'&Hin&He&Hd&Hm)]; auto.
           ++ right. exists c, d, dc. auto 10.
           ++ right. exists c', d', dc'. auto 10.
        -- intros [H|(c'&d'&dc'&[[= <- <-]|Hin]&He&Hd&Hm)]; auto.
           right. exists c', d', dc'. auto 10.
      * apply opt_eqb_neq in Em.
        assert (Hfst : fst (match module dc with
                            | Some m => if truthy (module dc)
                                        then (i, dd_append m (mkRelationship c d) x)
                                        else (i, x)
                            | None => (i, x) end) = i).
        { destruct (module dc); [destruct (truthy _)|]; reflexivity. }
        rewrite Hfst. simpl. split.
        -- intros [H|(c'&d'&dc'&Hin&He&Hd&Hm)]; auto.
           right. exists c', d', dc'. auto 10.
        -- intros [H|(c'&d'&dc'&[[= <- <-]|Hin]&He&Hd&Hm)]; auto.
           ++ congruence.
           ++ right. exists c', d', dc'. auto 10.
    + simpl. split.
      * intros [H|(c'&d'&dc'&Hin&He&Hd&Hm)]; auto.
        right. exists c', d', dc'. auto 10.
      * intros [H|(c'&d'&dc'&[[= <- <-]|Hin]&He&Hd&Hm)]; auto.
        -- congruence.
        -- right. exists c', d', dc'. auto 10.
Qed.

Lemma pair_step_external pairs : forall st m r,
  grouped_in (snd (fold_left (pair_step cm module_path) pairs st)) m r <->
  grouped_in (snd st) m r
  \/ exists c d dc, In (c, d) pairs /\ r = mkRelationship c d
       /\ dict_get d cm = Some dc /\ module dc = Some m
       /\ m <> module_path /\ m <> "".
Proof.
  induction pairs as [|[c d] pairs IH]; intros st m r.
  - simpl. split; [auto|]. intros [H|(?&?&?&[]&_)]. exact H.
  - cbn [fold_left]. rewrite IH. clear IH.
    unfold pair_step. cbn [fst snd]. destruct st as [i x].
    unfold module_dep_step.
    assert (Hskip :
      (grouped_in x m r
       \/ exists c' d' dc, In (c', d') pairs /\ r = mkRelationship c' d'
            /\ dict_get d' cm = Some dc /\ module dc = Some m
            /\ m <> module_path /\ m <> "")
      -> grouped_in x m r
       \/ exists c' d' dc, In (c', d') ((c, d) :: pairs) /\ r = mkRelationship c' d'
            /\ dict_get d' cm = Some dc /\ module dc = Some m
            /\ m <> module_path /\ m <> "").
    { intros [H|(c'&d'&dc'&Hin&H)]; auto.
      right. exists c', d', dc'. split; [now right|exact H]. }
    destruct (dict_get d cm) as [dc|] eqn:Ed.
    + destruct (opt_eqb (module dc) (Some module_path)) eqn:Em.
      * apply opt_eqb_eq in Em. cbn [snd]. split; [exact Hskip|].
        intros [H|(c'&d'&dc'&[[= <- <-]|Hin]&He&Hd&Hm&Hne&Hne')]; auto.
        -- congruence.
        -- right. exists c', d', dc'. auto 10.
      * apply opt_eqb_neq in Em.
        destruct (module dc) as [m0|] eqn:Emod.
        -- unfold truthy. destruct (String.eqb m0 "") eqn:E0; cbn [negb snd].
           ++ apply String.eqb_eq in E0. subst m0. split; [exact Hskip|].
              intros [H|(c'&d'&dc'&[[= <- <-]|Hin]&He&Hd&Hm&Hne&Hne')]; auto.
              ** congruence.
              ** right. exists c', d', dc'. auto 10.
           ++ apply String.eqb_neq in E0. rewrite grouped_in_dd_append. split.
              ** intros [[H|[-> ->]]|(c'&d'&dc'&Hin&H)]; auto.
                 --- right. exists c, d, dc. repeat split; auto.
                     +++ now left.
                     +++ congruence.
                 --- right. exists c', d', dc'. split; [now right|exact H].
              ** intros [H|(c'&d'&dc'&[[= <- <-]|Hin]&He&Hd&Hm&Hne&Hne')]; auto.
                 --- left. right. split; congruence.
                 --- right. exists c', d', dc'. auto 10.
        -- cbn [snd]. split; [exact Hskip|].
           intros [H|(c'&d'&dc'&[[= <- <-]|Hin]&He&Hd&Hm&Hne&Hne')]; auto.
           ++ congruence.
           ++ right. exists c', d', dc'. auto 10.
    + cbn [snd]. split; [exact Hskip|].
      intros [H|(c'&d'&dc'&[[= <- <-]|Hin]&He&Hd&Hm&Hne&Hne')]; auto.
      * congruence.
      * right. exists c', d', dc'. auto 10.
Qed.

Lemma pair_step_NoDup pairs : forall st,
  NoDup (dict_keys (snd st)) ->
  NoDup (dict_keys (snd (fold_left (pair_step cm module_path) pairs st))).
Proof.
  induction pairs as [|[c d] pairs IH]; intros st Hnd; [exact Hnd|].
  cbn [fold_left]. apply IH. unfold pair_step. cbn [fst snd].
  destruct st as [i x]. unfold module_dep_step.
  destruct (dict_get d cm) as [dc|]; auto.
  destruct (opt_eqb _ _); auto.
  destruct (module dc); auto.
  destruct (truthy _); auto.
  cbn [snd] in *. now apply dd_append_NoDup.
Qed.

Lemma in_module_pairs comps c d :
  In (c, d) (module_pairs cm comps) <->
  In c comps /\ exists info, dict_get c cm = Some info /\ In d (depends_on info).
Proof.
  unfold module_pairs. rewrite in_flat_map. split.
  - intros [c' [Hc' Hin]]. destruct (dict_get c' cm) as [info|] eqn:E; [|easy].
    apply in_map_iff in Hin. destruct Hin as [d' [[= <- <-] Hd]].
    split; auto. eauto.
  - intros [Hc [info [Hi Hd]]]. exists c. split; auto. rewrite Hi.
    now apply in_map.
Qed.

End ModuleEdges.

Lemma analyze_module_dependencies_found self module_path module_info :
  dict_get module_path (modules (parsed_tree self)) = Some module_info ->
  exists a,
    analyze_module_dependencies self module_path = Ok a
    /\ ma_internal_dependencies a
       = fst (fold_left (pair_step (component_map self) module_path)
                (module_pairs (component_map self) (components module_info)) ([], []))
    /\ ma_external_dependencies a
       = groups (snd (fold_left (pair_step (component_map self) module_path)
                        (module_pairs (component_map self) (components module_info))
                        ([], [])))
    /\ ma_complexity a
       = mkComplexity (List.length (components module_info))
           (List.length (ma_internal_dependencies a))
           (count_relationships (ma_external_dependencies a))
           (cohesion (List.length (ma_internal_dependencies a))
              (List.length (ma_internal_dependencies a)
               + count_relationships (ma_external_dependencies a))).
Proof.
  intros Hget. unfold analyze_module_dependencies. rewrite Hget.
  pose proof (module_comp_step_fst (component_map self) module_path
                (components module_info) ([], [], [])) as Hfst.
  destruct (fold_left (module_comp_step _ _) _ _) as [[i x] xd].
  cbn [fst] in Hfst. eexists. split; [reflexivity|].
  cbn [ma_internal_dependencies ma_external_dependencies ma_complexity].
  rewrite <- Hfst. auto.
Qed.

(** C2, as stated, fails: the edge [m.A -> B] of module [m], whose target
    is in the component map but has no module, is recorded neither as an
    internal edge nor in any external group. *)
Lemma unassigned_target_edge_omitted :
  ~ every_module_edge_classified (init unassigned_tree unassigned_graph) "m".
Proof.
  intros H.
  specialize (H (mkModuleAnalysis "m" ["m.A"] [] [] []
                   (mkComplexity 1 0 0 0%Q)) "m.A" "B" None eq_refl).
  destruct H as [H|[m [g [H _]]]].
  - exists (mkParsedModule "m" ["m.A"] [] None true 0),
      (mkComponentRecord "m.A" "A" "unknown" "" "" ["B"] [] (Some "m") 1 0),
      (mkComponentRecord "B" "B" "unknown" "" "" [] ["m.A"] None 0 1).
    repeat split; simpl; auto.
  - exact H.
  - exact H.
Qed.

(** C2, amended. For a module path of the parsed tree the analysis is
    returned, and every dependency edge from a component listed by the
    module to a target of the component map is recorded as an internal edge
    exactly when the target's module is the queried path, and in the
    external group of module [m] exactly when the target's module is [m],
    a non-empty path other than the queried one.  An edge whose target has
    no module, or the empty path as module when another path is queried,
    is therefore recorded in neither. *)
Theorem module_edges_classified :
  forall self module_path module_info,
    dict_get module_path (modules (parsed_tree self)) = Some module_info ->
    exists a,
      analyze_module_dependencies self module_path = Ok a
      /\ forall comp_id dep_id dep_module,
           module_edge self module_path comp_id dep_id dep_module ->
           (internal_edge_recorded a comp_id dep_id <-> dep_module = Some module_path)
           /\ (forall m, external_edge_recorded a m comp_id dep_id
                         <-> dep_module = Some m /\ m <> module_path /\ m <> "")
           /\ (dep_module = None \/ (dep_module = Some "" /\ module_path <> "") ->
               ~ internal_edge_recorded a comp_id dep_id
               /\ forall m, ~ external_edge_recorded a m comp_id dep_id).
Proof.
  intros self module_path module_info Hget.
  destruct (analyze_module_dependencies_found self module_path module_info Hget)
    as (a & Ha & Hi & Hx & _).
  exists a. split; [exact Ha|].
  intros c d dm (info & ci & dc & Hinfo & Hc & Hci & Hd & Hdc & Hdm).
  assert (info = module_info) by congruence. subst info.
  assert (Hint : internal_edge_recorded a c d <-> dm = Some module_path).
  { unfold internal_edge_recorded. rewrite Hi, pair_step_internal. cbn [fst]. split.
    - intros [[]|(c' & d' & dc' & _ & [= <- <-] & Hd' & Hm)]. congruence.
    - intros ->. right. exists c, d, dc. repeat split; auto.
      apply in_module_pairs. eauto. }
  assert (Hext : forall m, external_edge_recorded a m c d
                           <-> dm = Some m /\ m <> module_path /\ m <> "").
  { intros m. unfold external_edge_recorded. rewrite Hx, in_groups.
    - rewrite pair_step_external. cbn [snd]. split.
      + intros [[l [Hl _]]|(c' & d' & dc' & _ & [= <- <-] & Hd' & Hm & Hne)].
        * discriminate.
        * split; [congruence|exact Hne].
      + intros (-> & Hne). right. exists c, d, dc. repeat split; auto; try tauto.
        apply in_module_pairs. eauto.
    - apply pair_step_NoDup. constructor. }
  split; [exact Hint|]. split; [exact Hext|].
  intros [->|[-> Hne]]; split.
  - rewrite Hint. discriminate.
  - intros m. rewrite Hext. intros [Hm _]. discriminate.
  - rewrite Hint. congruence.
  - intros m. rewrite Hext. intros (Hm & _ & Hm'). congruence.
Qed.

Lemma module_edges_classified_witness :
  exists a,
    analyze_module_dependencies (init scenario_tree scenario_graph) "a" = Ok a
    /\ external_edge_recorded a "a/b" "a.X" "a.b.Y"
    /\ ~ internal_edge_recorded a "a.X" "a.b.Y".
Proof.
  destruct (module_edges_classified (init scenario_tree scenario_graph) "a"
              (mkParsedModule "a" ["a.X"] [("a/b", mkModuleData ["a.b.Y"] [])]
                 None false 0) eq_refl) as (a & Ha & H).
  exists a. split; [exact Ha|].
  destruct (H "a.X" "a.b.Y" (Some "a/b")) as (Hi & Hx & _).
  - exists (mkParsedModule "a" ["a.X"] [("a/b", mkModuleData ["a.b.Y"] [])]
              None false 0),
      (mkComponentRecord "a.X" "X" "unknown" "" "" ["a.b.Y"] [] (Some "a") 1 0),
      (mkComponentRecord "a.b.Y" "Y" "unknown" "" "" [] ["a.X"] (Some "a/b") 0 1).
    repeat split; simpl; auto.
  - split.
    + apply Hx. repeat split; discriminate.
    + rewrite Hi. discriminate.
Defined.

(** ** Cohesion *)

Lemma cohesion_bounds i t : i <= t -> (0 <= cohesion i t <= 1)%Q.
Proof.
  intros Hle. unfold cohesion. destruct (Nat.ltb 0 t) eqn:E.
  - apply Nat.ltb_lt in E.
    assert (Ht : (0 < inject_Z (Z.of_nat t))%Q).
    { change 0%Q with (inject_Z 0). rewrite <- Zlt_Qlt. lia. }
    split.
    + apply Qle_shift_div_l; [exact Ht|]. rewrite Qmult_0_l.
      change 0%Q with (inject_Z 0). rewrite <- Zle_Qle. lia.
    + apply Qle_shift_div_r; [exact Ht|]. rewrite Qmult_1_l.
      rewrite <- Zle_Qle. lia.
  - split; [apply Qle_refl|discriminate].
Qed.

(** C3. For a module path of the parsed tree the analysis is returned and
    its cohesion score is the quotient of the internal edge count by the
    total edge count when the total is positive, is 0 when both counts are
    zero, and lies between 0 and 1; the two counts are the number of
    internal edges and the number of external relationships of the result. *)
Theorem cohesion_score_spec :
  forall self module_path module_info,
    dict_get module_path (modules (parsed_tree self)) = Some module_info ->
    exists a,
      analyze_module_dependencies self module_path = Ok a
      /\ let c := ma_complexity a in
         let i := internal_edge_count c in
         let e := external_edge_count c in
         i = List.length (ma_internal_dependencies a)
         /\ e = count_relationships (ma_external_dependencies a)
         /\ (0 < i + e ->
             cohesion_score c
             = (inject_Z (Z.of_nat i) / inject_Z (Z.of_nat (i + e)))%Q)
         /\ (i + e = 0 -> cohesion_score c = 0%Q)
         /\ (0 <= cohesion_score c <= 1)%Q.
Proof.
  intros self module_path module_info Hget.
  destruct (analyze_module_dependencies_found self module_path module_info Hget)
    as (a & Ha & _ & _ & Hc).
  exists a. split; [exact Ha|]. rewrite Hc. cbn zeta.
  cbn [internal_edge_count external_edge_count cohesion_score].
  split; [reflexivity|]. split; [reflexivity|]. split; [|split].
  - intros Hpos. unfold cohesion. apply Nat.ltb_lt in Hpos. now rewrite Hpos.
  - intros Hz. unfold cohesion. now rewrite Hz.
  - apply cohesion_bounds. lia.
Qed.

Lemma cohesion_score_spec_witness :
  exists a,
    analyze_module_dependencies (init scenario_tree scenario_graph) "a" = Ok a
    /\ cohesion_score (ma_complexity a) = (inject_Z 0 / inject_Z 1)%Q
    /\ (0 <= cohesion_score (ma_complexity a) <= 1)%Q.
Proof.
  destruct (cohesion_score_spec (init scenario_tree scenario_graph) "a"
              (mkParsedModule "a" ["a.X"] [("a/b", mkModuleData ["a.b.Y"] [])]
                 None false 0) eq_refl) as (a & Ha & H).
  exists a. split; [exact Ha|].
  cbn zeta in H. destruct H as (Hi & He & Hpos & _ & Hb).
  split; [|exact Hb].
  assert (Ha' : Ok a = analyze_module_dependencies (init scenario_tree scenario_graph) "a")
    by (symmetry; exact Ha).
  vm_compute in Ha'. injection Ha' as ->. reflexivity.
Defined.

(** ** The module tree parser *)

Lemma ModuleData_mutind (P : ModuleData -> Prop) (Q : dict ModuleData -> Prop) :
  (forall comps kids, Q kids -> P (mkModuleData comps kids)) ->
  Q [] ->
  (forall p d rest, P d -> Q rest -> Q ((p, d) :: rest)) ->
  (forall d, P d) /\ (forall l, Q l).
Proof.
  intros HP Hnil Hcons.
  assert (Hd : forall d, P d).
  { fix IH 1. intros [comps kids]. apply HP.
    induction kids as [|[p d] rest IHrest].
    - exact Hnil.
    - apply Hcons; [apply IH | exact IHrest]. }
  split; [exact Hd|].
  induction l as [|[p d] rest IHrest]; auto.
Qed.

Lemma visits_module_unfold p d par l :
  visits_module p d par l
  = mkVisit p d par l :: visits (md_children d) (Some p) (S l).
Proof.
  destruct d as [comps kids]. simpl. f_equal.
  induction kids as [|[q e] rest IH]; simpl; congruence.
Qed.

Lemma traverse_module_unfold p d par l st :
  traverse_module p d par l st
  = traverse (md_children d) (Some p) (S l) (visit p d par l st).
Proof.
  destruct d as [comps kids]. simpl.
  generalize (visit p (mkModuleData comps kids) par l st). clear st.
  destruct kids as [|[q e] rest]; simpl; [reflexivity|].
  intros st. generalize (traverse_module q e (Some p) (S l) st). clear st.
  induction rest as [|[q' e'] rest IH]; simpl; auto.
Qed.

Lemma traverse_visits :
  (forall d p par l st,
     traverse_module p d par l st = fold_left apply_visit (visits_module p d par l) st)
  /\ (forall tree par l st,
        traverse tree par l st = fold_left apply_visit (visits tree par l) st).
Proof.
  apply ModuleData_mutind.
  - intros comps kids IH p par l st.
    rewrite traverse_module_unfold, visits_module_unfold. simpl. apply IH.
  - reflexivity.
  - intros p d rest IHd IHrest par l st. simpl.
    rewrite fold_left_app, <- IHd. apply IHrest.
Qed.

Lemma parse_module_tree_visits tree :
  parse_module_tree tree = fold_left apply_visit (visits tree None 0) empty_result.
Proof. apply traverse_visits. Qed.

Lemma modules_fold_visits vs : forall st,
  modules (fold_left apply_visit vs st)
  = fold_left store_visit vs (modules st).
Proof.
  induction vs as [|v vs IH]; intros st; simpl; [reflexivity|].
  now rewrite IH.
Qed.

Lemma root_modules_fold_visits vs : forall st,
  root_modules (fold_left apply_visit vs st)
  = root_modules st ++ map v_path (filter (fun v => is_none (v_parent v)) vs).
Proof.
  induction vs as [|v vs IH]; intros st; simpl.
  - now rewrite app_nil_r.
  - rewrite IH. unfold apply_visit, visit. simpl.
    destruct (v_parent v); simpl; [reflexivity|].
    now rewrite <- app_assoc.
Qed.

Section VisitDict.

Lemma store_keys vs : forall d p,
  In p (dict_keys (fold_left store_visit vs d)) <-> In p (dict_keys d) \/ In p (map v_path vs).
Proof.
  induction vs as [|v vs IH]; intros d p; simpl.
  - tauto.
  - rewrite IH. unfold store_visit. rewrite dict_keys_set_In. split.
    + intros [[->|H]|H]; auto.
    + intros [H|[<-|H]]; auto.
Qed.

Lemma store_NoDup vs : forall d,
  NoDup (dict_keys d) -> NoDup (dict_keys (fold_left store_visit vs d)).
Proof.
  induction vs as [|v vs IH]; intros d Hnd; simpl; auto.
  apply IH. unfold store_visit. auto with pydict.
Qed.

Lemma store_get vs : forall d p info,
  dict_get p (fold_left store_visit vs d) = Some info ->
  (exists v, In v vs /\ v_path v = p /\ info = info_of v)
  \/ dict_get p d = Some info.
Proof.
  induction vs as [|v vs IH]; intros d p info; simpl; auto.
  intros H. apply IH in H. destruct H as [(w & Hw & H)|H].
  - left. exists w. auto.
  - unfold store_visit in H. destruct (string_dec p (v_path v)) as [->|Hne].
    + rewrite dict_get_set_same in H. injection H as <-. left. exists v. auto.
    + rewrite dict_get_set_other in H by assumption. auto.
Qed.

Lemma store_get_unique vs : forall d v,
  NoDup (map v_path vs) -> In v vs ->
  dict_get (v_path v) (fold_left store_visit vs d) = Some (info_of v).
Proof.
  induction vs as [|w vs IH]; intros d v Hnd Hin; simpl in *; [contradiction|].
  inversion Hnd as [|? ? Hni Hnd']; subst. destruct Hin as [->|Hin].
  - destruct (dict_get (v_path v) (fold_left store_visit vs (store_visit d v))) as [info|] eqn:E.
    + apply store_get in E. destruct E as [(u & Hu & Hp & _)|E].
      * exfalso. apply Hni. rewrite <- Hp. now apply in_map.
      * unfold store_visit in E. now rewrite dict_get_set_same in E.
    + apply dict_get_None in E. exfalso. apply E. apply store_keys. left.
      unfold store_visit. apply dict_keys_set_In. now left.
  - now apply IH.
Qed.

End VisitDict.

Lemma info_of_inj v w : info_of v = info_of w -> v = w.
Proof.
  destruct v as [p [c k] par l], w as [p' [c' k'] par' l'].
  unfold info_of. simpl. intros [= -> -> -> -> _ ->]. reflexivity.
Qed.

Lemma parsed_module_visit tree p info :
  dict_get p (modules (parse_module_tree tree)) = Some info ->
  exists v, In v (visits tree None 0) /\ v_path v = p /\ info = info_of v.
Proof.
  rewrite parse_module_tree_visits, modules_fold_visits. intros H.
  apply store_get in H. destruct H as [H|H]; [exact H|discriminate].
Qed.

Lemma visit_parsed_module tree v :
  unique_paths tree -> In v (visits tree None 0) ->
  dict_get (v_path v) (modules (parse_module_tree tree)) = Some (info_of v).
Proof.
  intros Hu Hin. rewrite parse_module_tree_visits, modules_fold_visits.
  now apply store_get_unique.
Qed.

Lemma parsed_modules_NoDup tree :
  NoDup (dict_keys (modules (parse_module_tree tree))).
Proof.
  rewrite parse_module_tree_visits, modules_fold_visits.
  apply store_NoDup. simpl. auto with pydict.
Qed.

Lemma parsed_modules_keys tree p :
  In p (dict_keys (modules (parse_module_tree tree))) <-> In p (tree_paths tree).
Proof.
  rewrite parse_module_tree_visits, modules_fold_visits, store_keys.
  simpl. unfold tree_paths. tauto.
Qed.

(** Shape of the visits: a visit is made either by the outermost call, with
    its parent and level, or by a nested call, one level below the visit of
    its parent. *)
Lemma visits_shape :
  (forall d p par l v,
     In v (visits_module p d par l) ->
     (v_parent v = par /\ v_level v = l)
     \/ (l < v_level v
         /\ exists w, In w (visits_module p d par l)
                      /\ v_parent v = Some (v_path w)
                      /\ v_level v = S (v_level w)))
  /\ (forall tree par l v,
        In v (visits tree par l) ->
        (v_parent v = par /\ v_level v = l)
        \/ (l < v_level v
            /\ exists w, In w (visits tree par l)
                         /\ v_parent v = Some (v_path w)
                         /\ v_level v = S (v_level w))).
Proof.
  apply ModuleData_mutind.
  - intros comps kids IH p par l v. rewrite visits_module_unfold. simpl.
    intros [<-|Hin]; [left; auto|]. right.
    apply IH in Hin. destruct Hin as [[Hp Hl]|[Hlt (w & Hw & Hp & Hl)]].
    + split; [lia|]. eexists. split; [left; reflexivity|]. simpl. auto.
    + split; [lia|]. exists w. auto.
  - intros par l v [].
  - intros p d rest IHd IHrest par l v. simpl. rewrite in_app_iff.
    intros [Hin|Hin].
    + apply IHd in Hin. destruct Hin as [H|[Hlt (w & Hw & H)]]; [left; exact H|].
      right. split; [exact Hlt|]. exists w. rewrite in_app_iff. auto.
    + apply IHrest in Hin. destruct Hin as [H|[Hlt (w & Hw & H)]]; [left; exact H|].
      right. split; [exact Hlt|]. exists w. rewrite in_app_iff. auto.
Qed.

Lemma root_visit tree v :
  In v (visits tree None 0) ->
  (v_parent v = None /\ v_level v = 0)
  \/ (0 < v_level v
      /\ exists w, In w (visits tree None 0)
                   /\ v_parent v = Some (v_path w)
                   /\ v_level v = S (v_level w)).
Proof. apply visits_shape. Qed.

(** Facts that hold for every tree, also with repeated paths. *)
Lemma parsed_module_local tree p info :
  dict_get p (modules (parse_module_tree tree)) = Some info ->
  path info = p
  /\ (is_leaf info = true <-> children info = [])
  /\ (parent info = None <-> level info = 0)
  /\ (parent info = None -> In p (root_modules (parse_module_tree tree))).
Proof.
  intros H. apply parsed_module_visit in H. destruct H as (v & Hv & <- & ->).
  split; [reflexivity|]. split; [|split].
  - simpl. destruct (md_children (v_data v)); simpl; split; congruence.
  - simpl. destruct (root_visit tree v Hv) as [[Hp Hl]|[Hlt (w & _ & Hp & _)]].
    + tauto.
    + split; [congruence|lia].
  - simpl. intros Hp. rewrite parse_module_tree_visits, root_modules_fold_visits.
    simpl. apply in_map. apply filter_In. split; auto. now rewrite Hp.
Qed.

(** C7, as stated, fails when a path occurs twice in the tree: in
    [repeated_path_tree] the record of [b] has parent [a] and level 1 while
    the record of [a], written last at depth 2, has level 2. *)
Lemma repeated_path_breaks_invariant :
  ~ module_tree_invariant (parse_module_tree repeated_path_tree).
Proof.
  intros H.
  destruct (H "b" (mkParsedModule "b" [] [("a", mkModuleData [] [])] (Some "a") false 1)
              eq_refl) as (_ & _ & _ & Hp).
  destruct (Hp "a" eq_refl) as (qinfo & Hq & Hl).
  vm_compute in Hq. injection Hq as <-. simpl in Hl. discriminate.
Qed.

Lemma unique_paths_invariant tree :
  unique_paths tree -> module_tree_invariant (parse_module_tree tree).
Proof.
  intros Hu p info Hget.
  destruct (parsed_module_local tree p info Hget) as (_ & Hleaf & Hlvl & Hroot).
  destruct (parsed_module_visit tree p info Hget) as (v & Hv & Hp & ->).
  assert (Hroot' : In p (root_modules (parse_module_tree tree)) ->
                   parent (info_of v) = None).
  { rewrite parse_module_tree_visits, root_modules_fold_visits. simpl.
    intros Hin. apply in_map_iff in Hin. destruct Hin as (w & Hw & Hin).
    apply filter_In in Hin. destruct Hin as [Hin Hn].
    assert (w = v).
    { pose proof (visit_parsed_module tree w Hu Hin) as E1.
      pose proof (visit_parsed_module tree v Hu Hv) as E2.
      rewrite Hw, <- Hp, E2 in E1.
      symmetry. apply info_of_inj. congruence. }
    subst w. destruct (v_parent v); [discriminate|reflexivity]. }
  split; [exact Hleaf|]. split; [split; auto|]. split.
  - intros Hin. apply Hlvl. auto.
  - intros q Hq. simpl in Hq.
    destruct (root_visit tree v Hv) as [[Hp' _]|[_ (w & Hw & Hp' & Hl)]].
    + congruence.
    + exists (info_of w). split; [|exact Hl].
      assert (q = v_path w) by congruence. subst q.
      now apply visit_parsed_module.
Qed.

(** C7, amended. Every module produced by [parse_module_tree] is a leaf
    exactly when its children mapping is empty, and a module without parent
    is listed in [root_modules] and has level 0.  When no module path
    occurs twice in the module tree, conversely every module listed in
    [root_modules] has no parent and level 0, and every module with a
    parent has the level of its parent plus one. *)
Theorem parse_module_tree_invariant :
  forall tree p info,
    dict_get p (modules (parse_module_tree tree)) = Some info ->
    (is_leaf info = true <-> children info = [])
    /\ (parent info = None ->
        In p (root_modules (parse_module_tree tree)) /\ level info = 0)
    /\ (unique_paths tree ->
        (In p (root_modules (parse_module_tree tree)) ->
         parent info = None /\ level info = 0)
        /\ forall q, parent info = Some q ->
             exists qinfo,
               dict_get q (modules (parse_module_tree tree)) = Some qinfo
               /\ level info = S (level qinfo)).
Proof.
  intros tree p info Hget.
  destruct (parsed_module_local tree p info Hget) as (_ & Hleaf & Hlvl & Hroot).
  split; [exact Hleaf|]. split.
  - intros Hp. split; [now apply Hroot|now apply Hlvl].
  - intros Hu.
    destruct (unique_paths_invariant tree Hu p info Hget) as (_ & Hr & Hz & Hpar).
    split; [|exact Hpar].
    intros Hin. split; [now apply Hr|now apply Hz].
Qed.

Lemma parse_module_tree_invariant_witness :
  unique_paths scenario_tree
  /\ exists info,
       dict_get "a/b" (modules (parse_module_tree scenario_tree)) = Some info
       /\ is_leaf info = true
       /\ exists qinfo,
            dict_get "a" (modules (parse_module_tree scenario_tree)) = Some qinfo
            /\ level info = S (level qinfo).
Proof.
  assert (Hu : unique_paths scenario_tree).
  { unfold unique_paths. vm_compute.
    repeat constructor; simpl; intuition discriminate. }
  split; [exact Hu|].
  eexists. split; [reflexivity|].
  destruct (parse_module_tree_invariant scenario_tree "a/b" _ eq_refl)
    as (Hleaf & _ & Hrest).
  split; [now apply Hleaf|].
  destruct (Hrest Hu) as [_ Hpar]. now apply Hpar.
Defined.

(** ** Processing order *)

Lemma parsed_tree_init tree graph :
  parsed_tree (init tree graph) = parse_module_tree tree.
Proof. unfold init. now destruct (build_reverse_dependencies _). Qed.

Lemma fold_max_ge l : forall x,
  x <= fold_left Nat.max l x /\ forall y, In y l -> y <= fold_left Nat.max l x.
Proof.
  induction l as [|z l IH]; intros x; simpl.
  - split; [lia|tauto].
  - destruct (IH (Nat.max x z)) as [H1 H2]. split; [lia|].
    intros y [<-|Hy]; [lia|auto].
Qed.

Lemma fold_max_in l : forall x,
  fold_left Nat.max l x = x \/ In (fold_left Nat.max l x) l.
Proof.
  induction l as [|z l IH]; intros x; simpl; [now left|].
  destruct (IH (Nat.max x z)) as [H|H]; [|now right; right].
  rewrite H. destruct (Nat.max_spec x z) as [[_ ->]|[_ ->]]; auto.
Qed.

Lemma py_max_spec xs :
  xs <> [] ->
  exists m, py_max xs = Returned m /\ In m xs /\ forall y, In y xs -> y <= m.
Proof.
  destruct xs as [|x l]; [congruence|]. intros _.
  exists (fold_left Nat.max l x). split; [reflexivity|].
  destruct (fold_max_ge l x) as [H1 H2]. split.
  - destruct (fold_max_in l x) as [->|H]; simpl; auto.
  - intros y [<-|Hy]; auto.
Qed.

Lemma order_fold pt lvls : forall acc,
  fold_left
    (fun order lvl =>
       let ms := level_modules pt lvl in
       if nonempty ms then order ++ [ms] else order) lvls acc
  = acc ++ filter nonempty (map (level_modules pt) lvls).
Proof.
  induction lvls as [|l lvls IH]; intros acc; simpl.
  - now rewrite app_nil_r.
  - rewrite IH. destruct (nonempty (level_modules pt l)); simpl; auto.
    now rewrite <- app_assoc.
Qed.

Lemma range_down_In m l : In l (range_down m) <-> l <= m.
Proof.
  induction m as [|m IH]; simpl.
  - split; [intros [<-|[]]; lia | intros H; left; lia].
  - rewrite IH. split; [intros [<-|H]; lia | intros H].
    destruct (Nat.eq_dec l (S m)); [left; auto | right; lia].
Qed.

Lemma range_down_NoDup m : NoDup (range_down m).
Proof.
  induction m as [|m IH]; simpl.
  - repeat constructor. simpl. tauto.
  - constructor; [|exact IH]. rewrite range_down_In. lia.
Qed.

Lemma range_down_nth m : forall i, i <= m -> nth_error (range_down m) i = Some (m - i).
Proof.
  induction m as [|m IH]; intros i Hi.
  - assert (i = 0) by lia. subst. reflexivity.
  - destruct i as [|i]; [reflexivity|]. simpl. apply IH. lia.
Qed.

Lemma range_down_length m : List.length (range_down m) = S m.
Proof. induction m; simpl; auto. Qed.

Section LevelModules.
Variable pt : ParsedTree.
Hypothesis keys_NoDup : NoDup (dict_keys (modules pt)).

Lemma level_modules_In l p :
  In p (level_modules pt l) <->
  exists info, dict_get p (modules pt) = Some info /\ level info = l.
Proof.
  unfold level_modules. rewrite in_map_iff. split.
  - intros [[k info] [<- Hin]]. apply filter_In in Hin. destruct Hin as [Hin Hl].
    simpl in *. apply Nat.eqb_eq in Hl. exists info. split; auto.
    now apply In_dict_get.
  - intros [info [Hget Hl]]. exists (p, info). split; auto.
    apply filter_In. split; [now apply dict_get_In|].
    simpl. now apply Nat.eqb_eq.
Qed.

Lemma levels_In l :
  In l (map level (dict_values (modules pt))) <->
  exists p info, dict_get p (modules pt) = Some info /\ level info = l.
Proof.
  unfold dict_values. rewrite map_map, in_map_iff. split.
  - intros [[k info] [<- Hin]]. exists k, info. split; auto. now apply In_dict_get.
  - intros (p & info & Hget & <-). exists (p, info). split; auto.
    now apply dict_get_In.
Qed.

Lemma level_modules_NoDup l : NoDup (level_modules pt l).
Proof.
  unfold level_modules. revert keys_NoDup. unfold dict_keys.
  induction (modules pt) as [|[k info] d IH]; simpl; intros Hnd; [constructor|].
  inversion Hnd as [|? ? Hni Hnd']; subst.
  destruct (Nat.eqb (level info) l); simpl; auto.
  constructor; auto. intros Hin. apply Hni.
  apply in_map_iff in Hin. destruct Hin as [kv [<- Hin]].
  apply filter_In in Hin. apply in_map. tauto.
Qed.

Lemma concat_levels_In lvls p :
  In p (List.concat (map (level_modules pt) lvls)) <->
  exists info, dict_get p (modules pt) = Some info /\ In (level info) lvls.
Proof.
  rewrite in_concat. split.
  - intros [b [Hb Hp]]. apply in_map_iff in Hb. destruct Hb as [l [<- Hl]].
    apply level_modules_In in Hp. destruct Hp as [info [Hget <-]]. eauto.
  - intros [info [Hget Hl]]. exists (level_modules pt (level info)). split.
    + now apply in_map.
    + apply level_modules_In. eauto.
Qed.

Lemma concat_levels_NoDup lvls :
  NoDup lvls -> NoDup (List.concat (map (level_modules pt) lvls)).
Proof.
  induction lvls as [|l lvls IH]; simpl; intros Hnd; [constructor|].
  inversion Hnd as [|? ? Hni Hnd']; subst.
  apply NoDup_app.
  - apply level_modules_NoDup.
  - auto.
  - intros p Hp Hq. apply level_modules_In in Hp. destruct Hp as [info [Hget <-]].
    apply concat_levels_In in Hq. destruct Hq as [info' [Hget' Hl]].
    assert (info' = info) by congruence. subst. contradiction.
Qed.

End LevelModules.

Lemma concat_filter_nonempty {A : Type} (L : list (list A)) :
  List.concat (filter nonempty L) = List.concat L.
Proof.
  induction L as [|b L IH]; simpl; auto.
  destruct b; simpl; congruence.
Qed.

Lemma filter_all {A : Type} (f : A -> bool) (l : list A) :
  (forall x, In x l -> f x = true) -> filter f l = l.
Proof.
  induction l as [|x l IH]; simpl; intros H; auto.
  rewrite (H x) by auto. f_equal. auto.
Qed.

Lemma NoDup_concat_index {A : Type} (L : list (list A)) :
  NoDup (List.concat L) ->
  forall i j bi bj p,
    nth_error L i = Some bi -> nth_error L j = Some bj ->
    In p bi -> In p bj -> i = j.
Proof.
  induction L as [|b L IH]; intros Hnd i j bi bj p Hi Hj Hpi Hpj.
  - destruct i; discriminate.
  - simpl in Hnd. apply NoDup_app_remove_l in Hnd as Hnd'.
    assert (Hdisj : forall x c, In x b -> In c L -> ~ In x c).
    { intros x c Hx Hc Hxc. clear - Hnd Hx Hc Hxc.
      induction b as [|y b IHb]; [contradiction|].
      simpl in Hnd. inversion Hnd as [|? ? Hni Hnd']; subst.
      destruct Hx as [->|Hx]; [|auto].
      apply Hni. apply in_app_iff. right. apply in_concat. eauto. }
    destruct i as [|i], j as [|j]; simpl in *.
    + reflexivity.
    + injection Hi as <-. exfalso. apply (Hdisj p bj Hpi); auto.
      eapply nth_error_In; eauto.
    + injection Hj as <-. exfalso. apply (Hdisj p bi Hpj); auto.
      eapply nth_error_In; eauto.
    + f_equal. eapply IH; eauto.
Qed.

Lemma parsed_modules_nonempty tree :
  tree <> [] -> map level (dict_values (modules (parse_module_tree tree))) <> [].
Proof.
  intros Hne Hnil. destruct tree as [|[p d] rest]; [congruence|].
  assert (Hin : In p (dict_keys (modules (parse_module_tree ((p, d) :: rest))))).
  { apply parsed_modules_keys. unfold tree_paths. simpl.
    rewrite visits_module_unfold. simpl. now left. }
  unfold dict_values, dict_keys in *.
  destruct (modules (parse_module_tree ((p, d) :: rest))); [contradiction|discriminate].
Qed.

(** The order returned for a non-empty tree. *)
Lemma processing_order_returned tree graph :
  tree <> [] ->
  exists deepest,
    get_processing_order (init tree graph)
    = Returned (filter nonempty
                  (map (level_modules (parse_module_tree tree)) (range_down deepest)))
    /\ py_max (map level (dict_values (modules (parse_module_tree tree))))
       = Returned deepest
    /\ deepest_level (parse_module_tree tree) deepest.
Proof.
  intros Hne. unfold get_processing_order, get_processing_order_of.
  rewrite parsed_tree_init.
  destruct (py_max_spec _ (parsed_modules_nonempty tree Hne)) as (m & Hm & Hin & Hle).
  exists m. rewrite Hm, order_fold. simpl. split; [reflexivity|]. split; [reflexivity|].
  pose proof (parsed_modules_NoDup tree) as Hnd. split.
  - now apply levels_In.
  - intros p info Hget. apply Hle. apply levels_In; eauto.
Qed.

Section UniquePaths.
Variable tree : dict ModuleData.
Hypothesis unique : unique_paths tree.

Lemma level_inhabited deepest :
  deepest_level (parse_module_tree tree) deepest ->
  forall n l, l + n = deepest ->
    exists p info, dict_get p (modules (parse_module_tree tree)) = Some info /\ level info = l.
Proof.
  intros [Hex _]. induction n as [|n IH]; intros l Hl.
  - rewrite Nat.add_0_r in Hl. now subst.
  - destruct (IH (S l)) as (p & info & Hget & Hlvl); [lia|].
    destruct (unique_paths_invariant tree unique p info Hget) as (_ & _ & _ & Hp).
    destruct (parsed_module_local tree p info Hget) as (_ & _ & Hz & _).
    destruct (parent info) as [q|] eqn:E.
    + destruct (Hp q eq_refl) as (qinfo & Hq & Hs). exists q, qinfo.
      split; [exact Hq|lia].
    + assert (level info = 0) by (now apply Hz). lia.
Qed.

Lemma order_contiguous deepest :
  deepest_level (parse_module_tree tree) deepest ->
  filter nonempty (map (level_modules (parse_module_tree tree)) (range_down deepest))
  = map (level_modules (parse_module_tree tree)) (range_down deepest).
Proof.
  intros Hd. apply filter_all. intros b Hb.
  apply in_map_iff in Hb. destruct Hb as [l [<- Hl]].
  apply range_down_In in Hl.
  destruct (level_inhabited deepest Hd (deepest - l) l) as (p & info & Hget & Hlvl);
    [lia|].
  assert (Hin : In p (level_modules (parse_module_tree tree) l)).
  { apply level_modules_In; [apply parsed_modules_NoDup|eauto]. }
  destruct (level_modules (parse_module_tree tree) l); [contradiction|reflexivity].
Qed.

Lemma batch_level deepest i b p info :
  deepest_level (parse_module_tree tree) deepest ->
  nth_error (map (level_modules (parse_module_tree tree)) (range_down deepest)) i = Some b ->
  In p b -> dict_get p (modules (parse_module_tree tree)) = Some info ->
  level info = deepest - i.
Proof.
  intros Hd Hnth Hin Hget.
  assert (Hi : i <= deepest).
  { assert (Hsome : nth_error (map (level_modules (parse_module_tree tree)) (range_down deepest)) i <> None)
      by congruence.
    apply nth_error_Some in Hsome.
    rewrite length_map, range_down_length in Hsome. lia. }
  rewrite nth_error_map, range_down_nth in Hnth by assumption.
  injection Hnth as <-.
  apply level_modules_In in Hin; [|apply parsed_modules_NoDup].
  destruct Hin as [info' [Hget' Hl]]. congruence.
Qed.

Lemma descendant_deeper d m :
  descendant (parse_module_tree tree) d m ->
  exists dinfo minfo,
    dict_get d (modules (parse_module_tree tree)) = Some dinfo /\ dict_get m (modules (parse_module_tree tree)) = Some minfo
    /\ level minfo < level dinfo.
Proof.
  induction 1 as [d m info Hget Hp | d c m info Hget Hp _ IH].
  - destruct (unique_paths_invariant tree unique d info Hget) as (_ & _ & _ & H).
    destruct (H m Hp) as (minfo & Hm & Hl). exists info, minfo. split; auto.
    split; auto. lia.
  - destruct IH as (cinfo & minfo & Hc & Hm & Hl).
    destruct (unique_paths_invariant tree unique d info Hget) as (_ & _ & _ & H).
    destruct (H c Hp) as (cinfo' & Hc' & Hl').
    assert (cinfo' = cinfo) by congruence. subst.
    exists info, minfo. split; auto. split; auto. lia.
Qed.

Lemma descendants_in_earlier_batch deepest :
  deepest_level (parse_module_tree tree) deepest ->
  descendants_first (parse_module_tree tree) (map (level_modules (parse_module_tree tree)) (range_down deepest)).
Proof.
  intros Hd d m Hdesc.
  destruct (descendant_deeper d m Hdesc) as (dinfo & minfo & Hgd & Hgm & Hlt).
  destruct Hd as [Hex Hle].
  pose proof (Hle d dinfo Hgd) as Hd1. pose proof (Hle m minfo Hgm) as Hm1.
  exists (deepest - level dinfo), (deepest - level minfo),
    (level_modules (parse_module_tree tree) (level dinfo)), (level_modules (parse_module_tree tree) (level minfo)).
  repeat split.
  - rewrite nth_error_map, range_down_nth by lia. simpl. do 2 f_equal. lia.
  - apply level_modules_In; [apply parsed_modules_NoDup|eauto].
  - rewrite nth_error_map, range_down_nth by lia. simpl. do 2 f_equal. lia.
  - apply level_modules_In; [apply parsed_modules_NoDup|eauto].
  - lia.
Qed.

End UniquePaths.

Lemma scenario_tree_unique : unique_paths scenario_tree.
Proof.
  unfold unique_paths. vm_compute.
  repeat constructor; simpl; intuition discriminate.
Qed.

(** C4, as stated, fails when a path occurs twice in the tree: in
    [repeated_path_tree] the module [b] has parent [a], yet [a] (level 2)
    is in the first batch and [b] (level 1) in the second. *)
Lemma repeated_path_breaks_descendants_first :
  get_processing_order (init repeated_path_tree []) = Returned [["a"]; ["b"]]
  /\ ~ descendants_first (parsed_tree (init repeated_path_tree [])) [["a"]; ["b"]].
Proof.
  split; [reflexivity|]. intros H.
  destruct (H "b" "a") as (i & j & bi & bj & Hi & Hbi & Hj & Hbj & Hlt).
  - apply descendant_child
      with (info := mkParsedModule "b" [] [("a", mkModuleData [] [])] (Some "a") false 1);
      reflexivity.
  - destruct i as [|[|i]]; simpl in Hi.
    + injection Hi as <-. destruct Hbi as [Hbi|[]]. discriminate.
    + destruct j as [|[|j]]; try lia. simpl in Hj. destruct j; discriminate.
    + destruct i; discriminate.
Qed.

(** C4, amended. For a non-empty module tree [get_processing_order] returns
    the non-empty groups of module paths by level, from the deepest level
    down to level 0; when moreover no module path occurs twice in the tree,
    every descendant of a module is in a strictly earlier batch than the
    module. *)
Theorem processing_order_bottom_up :
  forall tree graph,
    tree <> [] ->
    exists deepest order,
      get_processing_order (init tree graph) = Returned order
      /\ deepest_level (parsed_tree (init tree graph)) deepest
      /\ order = filter nonempty
                   (map (level_modules (parsed_tree (init tree graph)))
                      (range_down deepest))
      /\ (unique_paths tree ->
          descendants_first (parsed_tree (init tree graph)) order).
Proof.
  intros tree graph Hne.
  destruct (processing_order_returned tree graph Hne) as (deepest & Hret & _ & Hd).
  exists deepest. eexists. split; [exact Hret|].
  rewrite parsed_tree_init. split; [exact Hd|]. split; [reflexivity|].
  intros Hu. rewrite (order_contiguous tree Hu deepest Hd).
  now apply descendants_in_earlier_batch.
Qed.

Lemma processing_order_bottom_up_witness :
  get_processing_order (init scenario_tree scenario_graph)
  = Returned [["a/b"]; ["a"]]
  /\ earlier_batch [["a/b"]; ["a"]] "a/b" "a".
Proof.
  assert (Hne : scenario_tree <> []) by discriminate.
  destruct (processing_order_bottom_up scenario_tree scenario_graph Hne)
    as (deepest & order & Hret & _ & _ & Hdesc).
  assert (Ho : order = [["a/b"]; ["a"]]).
  { assert (E : Returned order = get_processing_order (init scenario_tree scenario_graph))
      by (symmetry; exact Hret).
    vm_compute in E. now injection E. }
  subst order. split; [exact Hret|].
  apply (Hdesc scenario_tree_unique).
  apply descendant_child
    with (info := mkParsedModule "a/b" ["a.b.Y"] [] (Some "a") true 1); reflexivity.
Defined.

(** C5, as stated, fails on the scenario of the specification: [a/b] has
    level 1 and is in batch 0, [a] has level 0 and is in batch 1. *)
Lemma scenario_level_is_not_batch_index :
  get_processing_order (init scenario_tree scenario_graph)
  = Returned [["a/b"]; ["a"]]
  /\ ~ level_is_batch_index (parsed_tree (init scenario_tree scenario_graph))
         [["a/b"]; ["a"]].
Proof.
  split; [reflexivity|]. intros H.
  specialize (H 0 ["a/b"] "a/b"
                (mkParsedModule "a/b" ["a.b.Y"] [] (Some "a") true 1)
                eq_refl (or_introl eq_refl) eq_refl).
  discriminate H.
Qed.

(** C5, amended. For a non-empty module tree the batches returned by
    [get_processing_order] together hold exactly the parsed module paths,
    each path in exactly one batch and exactly once; when no module path
    occurs twice in the tree, the level of a module is the deepest level
    minus the index of its batch. *)
Theorem processing_order_partition :
  forall tree graph,
    tree <> [] ->
    exists deepest order,
      get_processing_order (init tree graph) = Returned order
      /\ deepest_level (parsed_tree (init tree graph)) deepest
      /\ (forall p, In p (List.concat order)
                    <-> In p (dict_keys (modules (parsed_tree (init tree graph)))))
      /\ NoDup (List.concat order)
      /\ (forall i j bi bj p,
            nth_error order i = Some bi -> nth_error order j = Some bj ->
            In p bi -> In p bj -> i = j)
      /\ (unique_paths tree ->
          forall i b p info,
            nth_error order i = Some b -> In p b ->
            dict_get p (modules (parsed_tree (init tree graph))) = Some info ->
            level info = deepest - i).
Proof.
  intros tree graph Hne.
  destruct (processing_order_returned tree graph Hne) as (deepest & Hret & _ & Hd).
  exists deepest. eexists. split; [exact Hret|].
  rewrite parsed_tree_init. split; [exact Hd|].
  pose proof (parsed_modules_NoDup tree) as Hnd.
  assert (Hdup : NoDup (List.concat
                          (filter nonempty
                             (map (level_modules (parse_module_tree tree))
                                (range_down deepest))))).
  { rewrite concat_filter_nonempty.
    apply concat_levels_NoDup; [exact Hnd|apply range_down_NoDup]. }
  split; [|split; [exact Hdup|split]].
  - intros p. rewrite concat_filter_nonempty, concat_levels_In by exact Hnd. split.
    + intros (info & Hget & _). eapply dict_get_Some_key; eauto.
    + intros Hin. apply dict_key_get in Hin. destruct Hin as [info Hget].
      exists info. split; auto. apply range_down_In.
      destruct Hd as [_ Hle]. now apply (Hle p).
  - now apply NoDup_concat_index.
  - intros Hu i b p info. rewrite (order_contiguous tree Hu deepest Hd).
    now apply batch_level.
Qed.

Lemma processing_order_partition_witness :
  exists deepest order,
    get_processing_order (init scenario_tree scenario_graph) = Returned order
    /\ NoDup (List.concat order)
    /\ forall i b p info,
         nth_error order i = Some b -> In p b ->
         dict_get p (modules (parsed_tree (init scenario_tree scenario_graph)))
         = Some info ->
         level info = deepest - i.
Proof.
  assert (Hne : scenario_tree <> []) by discriminate.
  destruct (processing_order_partition scenario_tree scenario_graph Hne)
    as (deepest & order & Hret & _ & _ & Hnd & _ & Hlvl).
  exists deepest, order. split; [exact Hret|]. split; [exact Hnd|].
  exact (Hlvl scenario_tree_unique).
Defined.

(** ** Empty inputs *)

Lemma nonempty_dict_set {V : Type} k (v : V) d : nonempty (dict_set k v d) = true.
Proof. destruct d as [|[k' v'] d]; simpl; [|destruct (String.eqb k k')]; reflexivity. Qed.

Lemma fold_left_nonempty {V B : Type} (f : dict V -> B -> dict V) l :
  (forall acc x, nonempty acc = true -> nonempty (f acc x) = true) ->
  forall acc, nonempty acc = true -> nonempty (fold_left f l acc) = true.
Proof.
  intros Hf. induction l as [|x l IH]; intros acc Hacc; simpl; auto.
Qed.

Lemma build_component_map_nonempty graph pt :
  graph <> [] -> nonempty (build_component_map graph pt) = true.
Proof.
  intros Hne. unfold build_component_map.
  apply fold_left_nonempty.
  - intros acc x Hacc.
    destruct (dict_get x (component_to_module pt)); auto.
    destruct (dict_get x acc); auto. apply nonempty_dict_set.
  - destruct graph as [|kv graph]; [congruence|]. simpl.
    apply fold_left_nonempty.
    + intros acc x _. apply nonempty_dict_set.
    + reflexivity.
Qed.

Lemma attach_dependents_nonempty reverse cm :
  nonempty cm = true -> nonempty (attach_dependents reverse cm) = true.
Proof.
  apply fold_left_nonempty. intros acc x Hacc.
  destruct (dict_get (fst x) acc); auto. apply nonempty_dict_set.
Qed.

Lemma component_map_init tree graph :
  component_map (init tree graph)
  = fst (build_reverse_dependencies
           (build_component_map graph (parse_module_tree tree))).
Proof. unfold init. now destruct (build_reverse_dependencies _). Qed.

Lemma component_map_init_nonempty tree graph :
  graph <> [] -> nonempty (component_map (init tree graph)) = true.
Proof.
  intros Hne. rewrite component_map_init. unfold build_reverse_dependencies.
  rewrite (build_component_map_nonempty graph _ Hne). simpl.
  apply attach_dependents_nonempty. now apply build_component_map_nonempty.
Qed.

(** C10, as stated, fails when the dependency graph is empty as well: the
    guard of [get_repository_summary] returns the error record before the
    maximum is taken. *)
Lemma empty_inputs_summary_returns :
  ~ (raises (get_processing_order (init [] []))
     /\ raises (get_repository_summary (init [] []))).
Proof. intros [_ [e H]]. discriminate H. Qed.

(** C10, amended. With an empty module tree [get_processing_order] raises
    (maximum of an empty sequence); [get_repository_summary] raises for the
    same reason when the dependency graph is non-empty and returns the
    ["Data not parsed"] error record when the graph is empty.  With at
    least one module both operations return. *)
Theorem empty_module_tree_raises :
  (forall graph,
     get_processing_order (init [] graph) = Raised ValueError
     /\ (graph <> [] -> get_repository_summary (init [] graph) = Raised ValueError)
     /\ (graph = [] ->
         get_repository_summary (init [] graph) = Returned (Error "Data not parsed")))
  /\ (forall tree graph,
        tree <> [] ->
        (exists order, get_processing_order (init tree graph) = Returned order)
        /\ (exists r, get_repository_summary (init tree graph) = Returned r)).
Proof.
  split.
  - intros graph. split; [|split].
    + unfold get_processing_order. now rewrite parsed_tree_init.
    + intros Hne. unfold get_repository_summary.
      rewrite (component_map_init_nonempty [] graph Hne), parsed_tree_init.
      reflexivity.
    + intros ->. reflexivity.
  - intros tree graph Hne.
    destruct (processing_order_returned tree graph Hne) as (deepest & Hret & Hmax & _).
    split; [eauto|].
    unfold get_repository_summary.
    destruct (nonempty (component_map (init tree graph))); simpl; [|eauto].
    rewrite parsed_tree_init, Hmax, Hret. eauto.
Qed.

Lemma empty_module_tree_raises_witness :
  get_repository_summary (init [] scenario_graph) = Raised ValueError
  /\ get_repository_summary (init [] []) = Returned (Error "Data not parsed")
  /\ exists r, get_repository_summary (init scenario_tree scenario_graph) = Returned r.
Proof.
  destruct empty_module_tree_raises as [H1 H2].
  split; [|split].
  - apply (H1 scenario_graph). discriminate.
  - apply (H1 []). reflexivity.
  - apply (H2 scenario_tree scenario_graph). discriminate.
Defined.

(** ** Component map and reverse index *)

Lemma dict_set_all {V : Type} (P : V -> Prop) (d : dict V) k v :
  (forall k' v', dict_get k' d = Some v' -> P v') -> P v ->
  forall k' v', dict_get k' (dict_set k v d) = Some v' -> P v'.
Proof.
  intros Hd Hv k' v' Hget. destruct (string_dec k' k) as [->|Hne].
  - rewrite dict_get_set_same in Hget. now injection Hget as <-.
  - rewrite dict_get_set_other in Hget by assumption. eauto.
Qed.

Lemma fresh_map_set cm k r :
  fresh_map cm -> fresh_record r -> fresh_map (dict_set k r cm).
Proof.
  intros [Hnd Hall] Hr. split; [auto with pydict|].
  now apply dict_set_all.
Qed.

Lemma first_pass_fresh graph : forall acc,
  fresh_map acc ->
  fresh_map
    (fold_left (fun cm kv => dict_set (fst kv) (new_record (fst kv) (snd kv)) cm)
       graph acc).
Proof.
  induction graph as [|kv graph IH]; intros acc Hacc; simpl; [exact Hacc|].
  apply IH. apply fresh_map_set; [exact Hacc|]. repeat split.
Qed.

Lemma second_pass_fresh (c2m : dict string) ids : forall cm,
  fresh_map cm ->
  fresh_map
    (fold_left
       (fun cm comp_id =>
          match dict_get comp_id c2m, dict_get comp_id cm with
          | Some m, Some r => dict_set comp_id (set_module (Some m) r) cm
          | _, _ => cm
          end)
       ids cm).
Proof.
  induction ids as [|x ids IH]; intros cm Hcm; simpl; [exact Hcm|].
  apply IH.
  destruct (dict_get x c2m) as [m|]; [|exact Hcm].
  destruct (dict_get x cm) as [r|] eqn:E; [|exact Hcm].
  apply fresh_map_set; [exact Hcm|].
  destruct Hcm as [_ Hall]. apply Hall in E. exact E.
Qed.

Lemma build_component_map_spec graph pt :
  fresh_map (build_component_map graph pt).
Proof.
  unfold build_component_map. apply second_pass_fresh, first_pass_fresh.
  split; [constructor|discriminate].
Qed.

Lemma dependents_of_dd_append reverse k x b :
  dependents_of (dd_append k x reverse) b
  = if String.eqb b k then dependents_of reverse b ++ [x] else dependents_of reverse b.
Proof.
  unfold dependents_of, dd_append. destruct (String.eqb b k) eqn:E.
  - apply String.eqb_eq in E. subst. rewrite dict_get_set_same.
    now destruct (dict_get k reverse).
  - apply String.eqb_neq in E. now rewrite dict_get_set_other.
Qed.

Lemma reverse_inner_count deps : forall reverse src a b,
  count_occ string_dec
    (dependents_of (fold_left (fun rv dep_id => dd_append dep_id src rv) deps reverse) b) a
  = count_occ string_dec (dependents_of reverse b) a
    + (if String.eqb a src then count_occ string_dec deps b else 0).
Proof.
  induction deps as [|d deps IH]; intros reverse src a b; simpl.
  - destruct (String.eqb a src); lia.
  - rewrite IH, dependents_of_dd_append.
    destruct (String.eqb b d) eqn:Ebd.
    + apply String.eqb_eq in Ebd. subst d.
      rewrite count_occ_app. simpl.
      destruct (string_dec b b) as [_|Hn]; [|congruence].
      destruct (String.eqb a src) eqn:Eas.
      * apply String.eqb_eq in Eas. subst.
        destruct (string_dec src src); [lia|congruence].
      * apply String.eqb_neq in Eas.
        destruct (string_dec src a); [congruence|lia].
    + apply String.eqb_neq in Ebd.
      destruct (string_dec d b); [congruence|]. reflexivity.
Qed.

Lemma reverse_inner_NoDup deps : forall (reverse : dict (list string)) src,
  NoDup (dict_keys reverse) ->
  NoDup (dict_keys (fold_left (fun rv dep_id => dd_append dep_id src rv) deps reverse)).
Proof.
  induction deps as [|d deps IH]; intros reverse src Hnd; simpl; auto.
  apply IH. now apply dd_append_NoDup.
Qed.

Lemma reverse_outer items : forall reverse a b,
  NoDup (dict_keys items) ->
  count_occ string_dec
    (dependents_of
       (fold_left
          (fun rv (kv : string * ComponentRecord) =>
             fold_left (fun rv dep_id => dd_append dep_id (fst kv) rv)
               (depends_on (snd kv)) rv)
          items reverse) b) a
  = count_occ string_dec (dependents_of reverse b) a
    + match dict_get a items with
      | Some ra => count_occ string_dec (depends_on ra) b
      | None => 0
      end.
Proof.
  induction items as [|[k r] items IH]; intros reverse a b Hnd; simpl.
  - lia.
  - inversion Hnd as [|? ? Hni Hnd']; subst.
    rewrite IH by assumption. rewrite reverse_inner_count. simpl.
    destruct (String.eqb a k) eqn:E.
    + apply String.eqb_eq in E. subst k.
      apply dict_get_None in Hni. rewrite Hni. lia.
    + lia.
Qed.

Lemma reverse_index_count cm a b :
  NoDup (dict_keys cm) ->
  count_occ string_dec (dependents_of (reverse_index cm) b) a
  = match dict_get a cm with
    | Some ra => count_occ string_dec (depends_on ra) b
    | None => 0
    end.
Proof.
  intros Hnd. unfold reverse_index. now rewrite reverse_outer.
Qed.

Lemma reverse_index_NoDup cm : NoDup (dict_keys (reverse_index cm)).
Proof.
  unfold reverse_index.
  assert (Hgen : forall reverse : dict (list string),
             NoDup (dict_keys reverse) ->
             NoDup (dict_keys
                      (fold_left
                         (fun rv (kv : string * ComponentRecord) =>
                            fold_left (fun rv dep_id => dd_append dep_id (fst kv) rv)
                              (depends_on (snd kv)) rv)
                         cm reverse))).
  { induction cm as [|kv cm IH]; intros reverse Hnd; simpl; auto.
    apply IH. now apply reverse_inner_NoDup. }
  apply Hgen. constructor.
Qed.

Lemma attach_dependents_get reverse : forall cm b,
  NoDup (dict_keys reverse) ->
  dict_get b (attach_dependents reverse cm)
  = match dict_get b cm with
    | None => None
    | Some r =>
        Some (match dict_get b reverse with
              | Some dependents => set_depended_by dependents r
              | None => r
              end)
    end.
Proof.
  unfold attach_dependents.
  induction reverse as [|[k deps] reverse IH]; intros cm b Hnd; simpl.
  - now destruct (dict_get b cm).
  - inversion Hnd as [|? ? Hni Hnd']; subst.
    rewrite IH by assumption.
    destruct (String.eqb b k) eqn:E.
    + apply String.eqb_eq in E. subst k.
      apply dict_get_None in Hni. rewrite Hni.
      destruct (dict_get b cm) as [r|] eqn:Eb.
      * now rewrite dict_get_set_same.
      * now rewrite Eb.
    + apply String.eqb_neq in E.
      destruct (dict_get k cm) as [r|]; [|reflexivity].
      now rewrite dict_get_set_other.
Qed.

Lemma init_component tree graph b rb :
  let cm0 := build_component_map graph (parse_module_tree tree) in
  dict_get b (component_map (init tree graph)) = Some rb ->
  exists r0,
    dict_get b cm0 = Some r0
    /\ depends_on rb = depends_on r0
    /\ depended_by rb = dependents_of (reverse_index cm0) b
    /\ dependency_count rb = List.length (depends_on rb)
    /\ dependent_count rb = List.length (depended_by rb).
Proof.
  intros cm0. rewrite component_map_init. fold cm0.
  destruct (build_component_map_spec graph (parse_module_tree tree)) as [Hnd Hfresh].
  fold cm0 in Hnd, Hfresh.
  unfold build_reverse_dependencies. destruct (nonempty cm0) eqn:Hne; simpl.
  - rewrite attach_dependents_get by apply reverse_index_NoDup.
    destruct (dict_get b cm0) as [r0|] eqn:E0; [|discriminate].
    destruct (Hfresh b r0 E0) as (Hby & Hcnt & Hdep).
    intros [= <-]. exists r0. split; [reflexivity|].
    unfold dependents_of.
    destruct (dict_get b (reverse_index cm0)) as [deps|]; simpl; auto.
    rewrite Hby, Hcnt. auto.
  - intros Hget. exists rb. split; [exact Hget|].
    destruct (Hfresh b rb Hget) as (Hby & Hcnt & Hdep).
    destruct cm0; [discriminate|discriminate].
Qed.

Lemma init_component_kept tree graph a r0 :
  dict_get a (build_component_map graph (parse_module_tree tree)) = Some r0 ->
  exists ra, dict_get a (component_map (init tree graph)) = Some ra.
Proof.
  intros Hget. rewrite component_map_init. unfold build_reverse_dependencies.
  rewrite (nonempty_get _ _ _ Hget). simpl.
  rewrite attach_dependents_get by apply reverse_index_NoDup.
  rewrite Hget. eauto.
Qed.

(** C6. After construction, for every component [b] of the component map,
    [b.depended_by] holds each component [a] of the map once per edge
    [a depends_on b] (so repeated edges are repeated) and nothing else, and
    the record satisfies [dependency_count = len(depends_on)] and
    [dependent_count = len(depended_by)]. *)
Theorem reverse_index_round_trip :
  forall tree graph b rb,
    dict_get b (component_map (init tree graph)) = Some rb ->
    (forall a ra,
       dict_get a (component_map (init tree graph)) = Some ra ->
       count_occ string_dec (depended_by rb) a
       = count_occ string_dec (depends_on ra) b)
    /\ (forall a, In a (depended_by rb) ->
          exists ra, dict_get a (component_map (init tree graph)) = Some ra
                     /\ In b (depends_on ra))
    /\ dependency_count rb = List.length (depends_on rb)
    /\ dependent_count rb = List.length (depended_by rb).
Proof.
  intros tree graph b rb Hb.
  destruct (init_component tree graph b rb Hb) as (r0 & Hb0 & _ & Hby & Hdc & Hbc).
  destruct (build_component_map_spec graph (parse_module_tree tree)) as [Hnd _].
  split; [|split; [|split; assumption]].
  - intros a ra Ha.
    destruct (init_component tree graph a ra Ha) as (ra0 & Ha0 & Hdeps & _).
    rewrite Hby, reverse_index_count, Ha0, Hdeps by assumption. reflexivity.
  - intros a Hin. apply (count_occ_In string_dec) in Hin.
    rewrite Hby, reverse_index_count in Hin by assumption.
    destruct (dict_get a (build_component_map graph (parse_module_tree tree)))
      as [ra0|] eqn:Ha0; [|lia].
    destruct (init_component_kept tree graph a ra0 Ha0) as [ra Ha].
    exists ra. split; [exact Ha|].
    destruct (init_component tree graph a ra Ha) as (ra0' & Ha0' & Hdeps & _).
    assert (ra0' = ra0) by congruence. subst.
    apply (count_occ_In string_dec). now rewrite Hdeps.
Qed.

Lemma reverse_index_round_trip_witness :
  exists rb,
    dict_get "a" (component_map (init [] duplicate_edge_graph)) = Some rb
    /\ depended_by rb = ["c"; "c"]
    /\ count_occ string_dec (depended_by rb) "c" = 2
    /\ dependent_count rb = List.length (depended_by rb).
Proof.
  eexists. split; [reflexivity|]. split; [reflexivity|].
  destruct (reverse_index_round_trip [] duplicate_edge_graph "a" _ eq_refl)
    as (Hcount & _ & _ & Hlen).
  split; [|exact Hlen].
  rewrite (Hcount "c" (mkComponentRecord "c" "c" "unknown" "" ""
                         ["a"; "a"; "ghost"] [] None 3 0) eq_refl).
  reflexivity.
Defined.

(** ** Lookups of absent ids *)

(** C8. For a component id absent from the component map and a module path
    absent from the parsed modules, the four lookup methods return a
    record carrying the error field; they have no raising path (the model
    is total), and the result of [analyze_dependencies] has all six lists
    empty. *)
Theorem absent_lookup_returns_error :
  (forall self component_id,
     dict_get component_id (component_map self) = None ->
     analyze_dependencies self component_id
     = mkDependencyAnalysis
         (Some ("Component " ++ component_id ++ " not found")%string)
         [] [] [] [] [] []
     /\ infer_component_purpose self component_id
        = Error ("Component " ++ component_id ++ " not found")%string)
  /\ (forall self module_path,
        dict_get module_path (modules (parsed_tree self)) = None ->
        analyze_module_dependencies self module_path
        = Error ("Module " ++ module_path ++ " not found")%string
        /\ generate_analysis_report self module_path
           = Error ("Module " ++ module_path ++ " not found")%string).
Proof.
  split.
  - intros self component_id Hget.
    unfold analyze_dependencies, infer_component_purpose, dict_mem.
    rewrite Hget. simpl. rewrite orb_true_r. split; reflexivity.
  - intros self module_path Hget.
    unfold analyze_module_dependencies, generate_analysis_report.
    rewrite Hget. split; reflexivity.
Qed.

Lemma absent_lookup_returns_error_witness :
  let self := init scenario_tree scenario_graph in
  da_error (analyze_dependencies self "nowhere")
  = Some "Component nowhere not found"
  /\ infer_component_purpose self "nowhere" = Error "Component nowhere not found"
  /\ analyze_module_dependencies self "a/c" = Error "Module a/c not found"
  /\ generate_analysis_report self "a/c" = Error "Module a/c not found".
Proof.
  intros self. destruct absent_lookup_returns_error as [Hc Hm].
  destruct (Hc self "nowhere" eq_refl) as [H1 H2].
  destruct (Hm self "a/c" eq_refl) as [H3 H4].
  split; [now rewrite H1|]. split; [exact H2|]. split; [exact H3|exact H4].
Defined.

(** ** Purpose inference *)

Lemma dependents_notes_recognised n :
  is_dependents_note no_dependents_note = true
  /\ is_dependents_note (many_dependents_note n) = true
  /\ is_dependents_note no_dependencies_note = false
  /\ is_dependents_note (many_dependencies_note n) = false.
Proof. repeat split. Qed.

Lemma user_manager_pattern :
  find (fun p : string * (string * Q * string) => str_in (fst p) (lower "UserManager"))
    role_patterns
  = Some ("manager", ("manager", (8 # 10)%Q, "manages resources or lifecycle")).
Proof. reflexivity. Qed.

(** C9, as stated, fails: with 3 dependents neither dependents note is
    appended (they are for 0 and for more than 10 dependents). *)
Lemma user_manager_has_no_dependents_note :
  ~ user_manager_scenario (init [] user_manager_graph) "app.UserManager".
Proof.
  intros H.
  destruct (H (mkComponentRecord "app.UserManager" "UserManager" "unknown" "" "" []
                 ["app.Login"; "app.Signup"; "app.Admin"] None 0 3)
              eq_refl eq_refl eq_refl eq_refl) as (p & Hp & _ & _ & Hnote).
  vm_compute in Hp. injection Hp as <-. discriminate Hnote.
Qed.

(** C9, amended. A component named "UserManager" gets role "manager" with
    confidence 0.8 whatever its dependency and dependent counts, because
    the name fragment is matched first; with 0 dependencies and 3
    dependents the reasoning is the name note followed by the
    no-dependencies note, and holds no dependents-count note. *)
Theorem user_manager_purpose :
  forall self component_id info,
    dict_get component_id (component_map self) = Some info ->
    name info = "UserManager" ->
    exists p,
      infer_component_purpose self component_id = Ok p
      /\ role p = "manager"
      /\ confidence p = (8 # 10)%Q
      /\ (dependency_count info = 0 -> dependent_count info = 3 ->
          reasoning p
          = [name_note "manager" "manages resources or lifecycle"; no_dependencies_note]
          /\ existsb is_dependents_note (reasoning p) = false).
Proof.
  intros self component_id info Hget Hname.
  unfold infer_component_purpose, dict_mem.
  rewrite (nonempty_get _ _ _ Hget), Hget. cbv zeta. cbn [negb orb].
  rewrite Hname, user_manager_pattern.
  destruct (Nat.eqb (dependency_count info) 0) eqn:Edep.
  - eexists. split; [reflexivity|]. simpl. split; [reflexivity|]. split; [reflexivity|].
    intros _ ->. split; reflexivity.
  - destruct (Nat.ltb 10 (dependency_count info)) eqn:Emany.
    + eexists. split; [reflexivity|]. simpl. split; [reflexivity|]. split; [reflexivity|].
      intros Hz. rewrite Hz in Edep. discriminate.
    + eexists. split; [reflexivity|]. simpl. split; [reflexivity|]. split; [reflexivity|].
      intros Hz. rewrite Hz in Edep. discriminate.
Qed.

Lemma user_manager_purpose_witness :
  exists p,
    infer_component_purpose (init [] user_manager_graph) "app.UserManager" = Ok p
    /\ role p = "manager"
    /\ confidence p = (8 # 10)%Q
    /\ reasoning p
       = [name_note "manager" "manages resources or lifecycle"; no_dependencies_note].
Proof.
  destruct (user_manager_purpose (init [] user_manager_graph) "app.UserManager"
              (mkComponentRecord "app.UserManager" "UserManager" "unknown" "" "" []
                 ["app.Login"; "app.Signup"; "app.Admin"] None 0 3)
              eq_refl eq_refl) as (p & Hp & Hr & Hc & Hn).
  exists p. repeat split; try assumption.
  now destruct (Hn eq_refl eq_refl).
Defined.

(** * Further properties of the analyzer and of its callers *)

(** ** Lists kept by the module tree parser *)

Lemma leaf_modules_fold_visits vs : forall st,
  leaf_modules (fold_left apply_visit vs st)
  = leaf_modules st ++ map v_path (filter (fun v => is_leaf (info_of v)) vs).
Proof.
  induction vs as [|v vs IH]; intros st; simpl.
  - now rewrite app_nil_r.
  - rewrite IH. unfold apply_visit, visit. simpl.
    destruct (Nat.eqb (List.length (md_children (v_data v))) 0); simpl;
      [now rewrite <- app_assoc|reflexivity].
Qed.

Lemma parent_modules_fold_visits vs : forall st,
  parent_modules (fold_left apply_visit vs st)
  = parent_modules st
    ++ map v_path (filter (fun v => negb (is_leaf (info_of v))) vs).
Proof.
  induction vs as [|v vs IH]; intros st; simpl.
  - now rewrite app_nil_r.
  - rewrite IH. unfold apply_visit, visit. simpl.
    destruct (Nat.eqb (List.length (md_children (v_data v))) 0); simpl;
      [reflexivity|now rewrite <- app_assoc].
Qed.

Lemma root_visits :
  (forall d p par l,
     filter (fun v => is_none (v_parent v)) (visits_module p d par l)
     = if is_none par then [mkVisit p d par l] else [])
  /\ (forall tree par l,
        filter (fun v => is_none (v_parent v)) (visits tree par l)
        = if is_none par
          then map (fun kv => mkVisit (fst kv) (snd kv) par l) tree else []).
Proof.
  apply ModuleData_mutind.
  - intros comps kids IH p par l. rewrite visits_module_unfold. simpl.
    rewrite IH. simpl. now destruct par.
  - intros par l. simpl. now destruct par.
  - intros p d rest IHd IHrest par l. simpl.
    rewrite filter_app, IHd, IHrest. now destruct par.
Qed.

(** X1. [root_modules] is the list of the top-level keys of the module
    tree, in order, whatever the paths deeper in the tree. *)
Theorem root_modules_top_level :
  forall tree, root_modules (parse_module_tree tree) = dict_keys tree.
Proof.
  intros tree. rewrite parse_module_tree_visits, root_modules_fold_visits.
  destruct root_visits as [_ H]. rewrite H. simpl.
  unfold dict_keys. rewrite map_map. apply map_ext. reflexivity.
Qed.

Lemma unique_visit tree v w :
  unique_paths tree ->
  In v (visits tree None 0) -> In w (visits tree None 0) ->
  v_path v = v_path w -> v = w.
Proof.
  intros Hu Hv Hw Hp. apply info_of_inj.
  pose proof (visit_parsed_module tree v Hu Hv) as E1.
  pose proof (visit_parsed_module tree w Hu Hw) as E2.
  rewrite Hp in E1. congruence.
Qed.

(** X2. Every parsed module is listed in [leaf_modules] when its record
    is a leaf and in [parent_modules] otherwise, and both lists hold parsed
    module paths only; when no path occurs twice in the tree, a module is
    in [leaf_modules] exactly when it is a leaf and in [parent_modules]
    exactly when it is not. *)
Theorem leaf_parent_classification :
  forall tree,
    let pt := parse_module_tree tree in
    (forall p, In p (leaf_modules pt) \/ In p (parent_modules pt)
               <-> In p (dict_keys (modules pt)))
    /\ (forall p info,
          dict_get p (modules pt) = Some info ->
          (is_leaf info = true -> In p (leaf_modules pt))
          /\ (is_leaf info = false -> In p (parent_modules pt))
          /\ (unique_paths tree ->
              (In p (leaf_modules pt) <-> is_leaf info = true)
              /\ (In p (parent_modules pt) <-> is_leaf info = false))).
Proof.
  intros tree pt. subst pt.
  assert (Hleaf : forall p, In p (leaf_modules (parse_module_tree tree)) <->
                    exists v, In v (visits tree None 0) /\ v_path v = p
                              /\ is_leaf (info_of v) = true).
  { intros p. rewrite parse_module_tree_visits, leaf_modules_fold_visits. simpl.
    rewrite in_map_iff. split.
    - intros (v & Hp & Hin). apply filter_In in Hin. exists v. tauto.
    - intros (v & Hin & Hp & Hl). exists v. split; auto. apply filter_In. tauto. }
  assert (Hpar : forall p, In p (parent_modules (parse_module_tree tree)) <->
                   exists v, In v (visits tree None 0) /\ v_path v = p
                             /\ is_leaf (info_of v) = false).
  { intros p. rewrite parse_module_tree_visits, parent_modules_fold_visits. simpl.
    rewrite in_map_iff. split.
    - intros (v & Hp & Hin). apply filter_In in Hin. exists v.
      destruct Hin as [Hin Hn]. apply negb_true_iff in Hn. tauto.
    - intros (v & Hin & Hp & Hl). exists v. split; auto. apply filter_In.
      split; auto. now apply negb_true_iff. }
  split.
  - intros p. rewrite parsed_modules_keys, Hleaf, Hpar. unfold tree_paths.
    rewrite in_map_iff. split.
    + intros [(v & Hin & Hp & _)|(v & Hin & Hp & _)]; exists v; auto.
    + intros (v & Hp & Hin).
      destruct (is_leaf (info_of v)) eqn:E; [left|right]; exists v; auto.
  - intros p info Hget.
    destruct (parsed_module_visit tree p info Hget) as (v & Hv & Hp & ->).
    split; [|split].
    + intros Hl. apply Hleaf. exists v. auto.
    + intros Hl. apply Hpar. exists v. auto.
    + intros Hu. split; split.
      * intros Hin. apply Hleaf in Hin. destruct Hin as (w & Hw & Hpw & Hl).
        assert (w = v) by (apply (unique_visit tree); auto; congruence).
        now subst.
      * intros Hl. apply Hleaf. exists v. auto.
      * intros Hin. apply Hpar in Hin. destruct Hin as (w & Hw & Hpw & Hl).
        assert (w = v) by (apply (unique_visit tree); auto; congruence).
        now subst.
      * intros Hl. apply Hpar. exists v. auto.
Qed.

Lemma forest_tree_unique : unique_paths forest_tree.
Proof.
  unfold unique_paths. vm_compute.
  repeat constructor; simpl; intuition discriminate.
Qed.

Lemma leaf_parent_classification_witness :
  In "cli" (leaf_modules (parse_module_tree forest_tree))
  /\ ~ In "cli" (parent_modules (parse_module_tree forest_tree)).
Proof.
  destruct (leaf_parent_classification forest_tree) as [_ H].
  destruct (H "cli" (mkParsedModule "cli" ["cli.Main"] [] None true 0) eq_refl)
    as (Hl & _ & Hu).
  split; [now apply Hl|].
  destruct (Hu forest_tree_unique) as [_ Hp]. intros Hin.
  apply Hp in Hin. discriminate.
Defined.

(** Children of a visit are visited, and every visit below the outermost
    call is the visit of a child. *)
Lemma child_visited :
  (forall d p par l w,
     In w (visits_module p d par l) ->
     forall q e, In (q, e) (md_children (v_data w)) ->
       In (mkVisit q e (Some (v_path w)) (S (v_level w))) (visits_module p d par l))
  /\ (forall tree par l w,
        In w (visits tree par l) ->
        forall q e, In (q, e) (md_children (v_data w)) ->
          In (mkVisit q e (Some (v_path w)) (S (v_level w))) (visits tree par l)).
Proof.
  apply ModuleData_mutind.
  - intros comps kids IH p par l w. rewrite visits_module_unfold. simpl.
    intros [<-|Hin] q e Hq; right.
    + simpl in *. clear IH. induction kids as [|[q' e'] rest IHr]; [contradiction|].
      simpl. apply in_app_iff. destruct Hq as [[= -> ->]|Hq].
      * left. rewrite visits_module_unfold. now left.
      * right. auto.
    + now apply IH.
  - intros par l w [].
  - intros p d rest IHd IHrest par l w. simpl. rewrite in_app_iff.
    intros [Hin|Hin] q e Hq; apply in_app_iff;
      [left; now apply IHd|right; now apply IHrest].
Qed.

Lemma visit_is_child :
  (forall d p par l v,
     In v (visits_module p d par l) ->
     v = mkVisit p d par l
     \/ exists w, In w (visits_module p d par l)
                  /\ In (v_path v, v_data v) (md_children (v_data w))
                  /\ v_parent v = Some (v_path w))
  /\ (forall tree par l v,
        In v (visits tree par l) ->
        (In (v_path v, v_data v) tree /\ v_parent v = par)
        \/ exists w, In w (visits tree par l)
                     /\ In (v_path v, v_data v) (md_children (v_data w))
                     /\ v_parent v = Some (v_path w)).
Proof.
  apply ModuleData_mutind.
  - intros comps kids IH p par l v. rewrite visits_module_unfold. simpl.
    intros [<-|Hin]; [now left|]. right.
    apply IH in Hin. destruct Hin as [[Hin Hp]|(w & Hw & Hin & Hp)].
    + eexists. split; [left; reflexivity|]. simpl. auto.
    + exists w. auto.
  - intros par l v [].
  - intros p d rest IHd IHrest par l v. simpl. rewrite in_app_iff.
    intros [Hin|Hin].
    + apply IHd in Hin. destruct Hin as [->|(w & Hw & H)].
      * left. simpl. auto.
      * right. exists w. rewrite in_app_iff. auto.
    + apply IHrest in Hin. destruct Hin as [[Hin Hp]|(w & Hw & H)].
      * left. simpl. auto.
      * right. exists w. rewrite in_app_iff. auto.
Qed.

(** X3. When no path occurs twice in the module tree, [_get_child_modules]
    of a parsed module returns exactly the modules whose [parent] is that
    module, and each of them is one level below it; for a path that was
    not parsed the subscript raises [KeyError]. *)
Theorem child_modules_are_children :
  forall tree graph p,
    let self := init tree graph in
    (dict_get p (modules (parsed_tree self)) = None ->
     get_child_modules self p = KeyError p)
    /\ (forall info,
          dict_get p (modules (parsed_tree self)) = Some info ->
          unique_paths tree ->
          exists kids,
            get_child_modules self p = Value kids
            /\ forall q,
                 In q kids <->
                 exists qinfo,
                   dict_get q (modules (parsed_tree self)) = Some qinfo
                   /\ parent qinfo = Some p
                   /\ level qinfo = S (level info)).
Proof.
  intros tree graph p self. subst self. unfold get_child_modules.
  rewrite parsed_tree_init. split.
  - intros ->. reflexivity.
  - intros info Hget Hu. rewrite Hget. eexists. split; [reflexivity|].
    destruct (parsed_module_visit tree p info Hget) as (w & Hw & Hp & ->).
    intros q. simpl. unfold dict_keys. rewrite in_map_iff. split.
    + intros ([q' e] & Hq & Hin). simpl in Hq. subst q'.
      destruct child_visited as [_ Hc].
      pose proof (Hc tree None 0 w Hw q e Hin) as Hv.
      exists (info_of (mkVisit q e (Some (v_path w)) (S (v_level w)))).
      split; [|split].
      * apply (visit_parsed_module tree _ Hu Hv).
      * simpl. now rewrite Hp.
      * reflexivity.
    + intros (qinfo & Hq & Hpar & Hl).
      destruct (parsed_module_visit tree q qinfo Hq) as (v & Hv & Hpv & ->).
      destruct visit_is_child as [_ Hc].
      destruct (Hc tree None 0 v Hv) as [[_ Hn]|(w' & Hw' & Hin & Hpw)].
      * simpl in Hpar. congruence.
      * simpl in Hpar. assert (w' = w).
        { apply (unique_visit tree); auto. congruence. }
        subst w'. exists (v_path v, v_data v). split; auto.
Qed.

Lemma child_modules_are_children_witness :
  get_child_modules (init forest_tree scenario_graph) "core" = Value ["core/io"]
  /\ get_child_modules (init forest_tree scenario_graph) "nowhere" = KeyError "nowhere".
Proof.
  destruct (child_modules_are_children forest_tree scenario_graph "core") as [_ H].
  destruct (H _ eq_refl forest_tree_unique) as (kids & Hk & _).
  destruct (child_modules_are_children forest_tree scenario_graph "nowhere") as [Hn _].
  split; [|exact (Hn eq_refl)].
  rewrite Hk. f_equal.
  assert (E : Value kids = get_child_modules (init forest_tree scenario_graph) "core")
    by (symmetry; exact Hk).
  vm_compute in E. now injection E.
Defined.

(** ** Ownership of components *)

Lemma dict_get_app {V : Type} (d1 d2 : dict V) k :
  dict_get k (d1 ++ d2)
  = match dict_get k d1 with Some v => Some v | None => dict_get k d2 end.
Proof.
  induction d1 as [|[k' v'] d1 IH]; simpl; auto.
  now destruct (String.eqb k k').
Qed.

(** A sequence of writes [d[k] = v]: the last write to a key wins. *)
Lemma fold_set_last {V : Type} (ws : list (string * V)) : forall d k,
  dict_get k (fold_left (fun d w => dict_set (fst w) (snd w) d) ws d)
  = match dict_get k (rev ws) with Some v => Some v | None => dict_get k d end.
Proof.
  induction ws as [|[k' v'] ws IH]; intros d k; simpl; auto.
  rewrite IH, dict_get_app. destruct (dict_get k (rev ws)); auto. simpl.
  destruct (String.eqb k k') eqn:E.
  - apply String.eqb_eq in E. subst. apply dict_get_set_same.
  - apply String.eqb_neq in E. now apply dict_get_set_other.
Qed.

Lemma fold_set_map {V A : Type} (f : A -> string * V) (l : list A) : forall d,
  fold_left (fun d a => dict_set (fst (f a)) (snd (f a)) d) l d
  = fold_left (fun d w => dict_set (fst w) (snd w) d) (map f l) d.
Proof. induction l as [|a l IH]; intros d; simpl; auto. Qed.

Lemma component_to_module_fold_visits vs : forall st,
  component_to_module (fold_left apply_visit vs st)
  = fold_left (fun d w => dict_set (fst w) (snd w) d)
      (flat_map (fun v => map (fun c => (c, v_path v)) (md_components (v_data v))) vs)
      (component_to_module st).
Proof.
  induction vs as [|v vs IH]; intros st; simpl; auto.
  rewrite IH, fold_left_app. f_equal.
  unfold apply_visit, visit. simpl.
  apply (fold_set_map (fun c => (c, v_path v))).
Qed.

Lemma in_module_listings tree c m :
  In (c, m) (module_listings tree) <-> lists_component tree m c.
Proof.
  unfold module_listings, lists_component. rewrite in_flat_map. split.
  - intros (v & Hv & Hin). apply in_map_iff in Hin.
    destruct Hin as (c' & [= -> <-] & Hc). exists v. auto.
  - intros (v & Hv & <- & Hc). exists v. split; auto.
    apply in_map_iff. exists c. auto.
Qed.

(** X4. The owner recorded in [component_to_module] is the last module, in
    traversal order, that lists the component (last write wins): a
    component has an owner exactly when some module lists it, the owner
    lists it, and a component listed under one module path only is owned
    by that module. *)
Theorem component_owner_last_listing :
  forall tree c,
    let c2m := component_to_module (parse_module_tree tree) in
    dict_get c c2m = dict_get c (rev (module_listings tree))
    /\ (forall m, dict_get c c2m = Some m -> lists_component tree m c)
    /\ (forall m, lists_component tree m c -> exists m', dict_get c c2m = Some m')
    /\ (forall m, lists_component tree m c ->
          (forall m', lists_component tree m' c -> m' = m) ->
          dict_get c c2m = Some m).
Proof.
  intros tree c c2m.
  assert (E : dict_get c c2m = dict_get c (rev (module_listings tree))).
  { subst c2m. rewrite parse_module_tree_visits, component_to_module_fold_visits.
    rewrite fold_set_last. unfold module_listings. simpl.
    now destruct (dict_get c _). }
  assert (Hsound : forall m, dict_get c c2m = Some m -> lists_component tree m c).
  { intros m Hm. rewrite E in Hm. apply dict_get_In in Hm.
    apply in_rev in Hm. now apply in_module_listings. }
  assert (Hsome : forall m, lists_component tree m c ->
                            exists m', dict_get c c2m = Some m').
  { intros m Hm. apply in_module_listings, in_rev in Hm.
    rewrite E. apply dict_key_get. unfold dict_keys.
    change c with (fst (c, m)). now apply in_map. }
  split; [exact E|]. split; [exact Hsound|]. split; [exact Hsome|].
  intros m Hm Honly. destruct (Hsome m Hm) as [m' Hm'].
  rewrite Hm'. f_equal. apply Honly. now apply Hsound.
Qed.

Lemma component_owner_last_listing_witness :
  dict_get "shared.C" (component_to_module (parse_module_tree shared_component_tree))
  = Some "second"
  /\ dict_get "first.A" (component_to_module (parse_module_tree shared_component_tree))
     = Some "first".
Proof.
  destruct (component_owner_last_listing shared_component_tree "shared.C")
    as (E & _).
  destruct (component_owner_last_listing shared_component_tree "first.A")
    as (_ & _ & _ & Honly).
  split; [rewrite E; reflexivity|].
  apply Honly.
  - exists (mkVisit "first" (mkModuleData ["shared.C"; "first.A"] []) None 0).
    simpl. auto.
  - intros m' (v & Hv & <- & Hc). simpl in Hv.
    destruct Hv as [<-|[<-|[]]]; simpl in *; [reflexivity|].
    destruct Hc as [Hc|[]]. discriminate.
Defined.

(** ** The component map *)

Lemma first_pass_unassigned graph : forall acc,
  (forall k r, dict_get k acc = Some r -> module r = None) ->
  forall k r,
    dict_get k
      (fold_left (fun cm kv => dict_set (fst kv) (new_record (fst kv) (snd kv)) cm)
         graph acc) = Some r ->
    module r = None.
Proof.
  induction graph as [|kv graph IH]; intros acc Hacc; simpl; [exact Hacc|].
  apply IH. now apply dict_set_all.
Qed.

Lemma set_module_idem m r : set_module m (set_module m r) = set_module m r.
Proof. reflexivity. Qed.

Lemma second_pass_get (c2m : dict string) ids : forall cm k,
  dict_get k
    (fold_left
       (fun cm comp_id =>
          match dict_get comp_id c2m, dict_get comp_id cm with
          | Some m, Some r => dict_set comp_id (set_module (Some m) r) cm
          | _, _ => cm
          end)
       ids cm)
  = match dict_get k cm with
    | None => None
    | Some r =>
        Some (match dict_get k c2m with
              | Some m => if existsb (String.eqb k) ids
                          then set_module (Some m) r else r
              | None => r
              end)
    end.
Proof.
  induction ids as [|x ids IH]; intros cm k; simpl.
  - destruct (dict_get k cm); [|reflexivity]. now destruct (dict_get k c2m).
  - rewrite IH. clear IH. destruct (String.eqb k x) eqn:E.
    + apply String.eqb_eq in E. subst x. simpl.
      destruct (dict_get k c2m) as [m|]; [|reflexivity].
      destruct (dict_get k cm) as [r|] eqn:Ek.
      * rewrite dict_get_set_same. now destruct (existsb _ ids).
      * now rewrite Ek.
    + apply String.eqb_neq in E. simpl.
      destruct (dict_get x c2m) as [m|]; [|reflexivity].
      destruct (dict_get x cm) as [r|]; [|reflexivity].
      now rewrite dict_get_set_other.
Qed.

Lemma existsb_eqb_In k ids : existsb (String.eqb k) ids = true <-> In k ids.
Proof.
  rewrite existsb_exists. split.
  - intros (x & Hin & E). apply String.eqb_eq in E. now subst.
  - intros Hin. exists k. split; auto. apply String.eqb_refl.
Qed.

Lemma build_component_map_unfold graph pt :
  build_component_map graph pt
  = fold_left
      (fun cm comp_id =>
         match dict_get comp_id (component_to_module pt), dict_get comp_id cm with
         | Some m, Some r => dict_set comp_id (set_module (Some m) r) cm
         | _, _ => cm
         end)
      (dict_keys (first_pass graph)) (first_pass graph).
Proof. reflexivity. Qed.

(** The record of a component after construction, from the record the
    first loop of [build_component_map] creates. *)
Lemma built_record tree graph k r :
  dict_get k (component_map (init tree graph)) = Some r ->
  exists r0,
    dict_get k (first_pass graph) = Some r0
    /\ module r0 = None
    /\ module r = dict_get k (component_to_module (parse_module_tree tree))
    /\ cid r = cid r0 /\ name r = name r0
    /\ component_type r = component_type r0
    /\ file_path r = file_path r0 /\ relative_path r = relative_path r0
    /\ depends_on r = depends_on r0.
Proof.
  intros Hget.
  assert (Hcm0 : exists r1,
             dict_get k (build_component_map graph (parse_module_tree tree)) = Some r1
             /\ module r = module r1 /\ cid r = cid r1 /\ name r = name r1
             /\ component_type r = component_type r1
             /\ file_path r = file_path r1 /\ relative_path r = relative_path r1
             /\ depends_on r = depends_on r1).
  { rewrite component_map_init in Hget. unfold build_reverse_dependencies in Hget.
    destruct (nonempty _) eqn:Hne; simpl in Hget.
    - rewrite attach_dependents_get in Hget by apply reverse_index_NoDup.
      destruct (dict_get k (build_component_map _ _)) as [r1|]; [|discriminate].
      exists r1. split; [reflexivity|].
      injection Hget as <-. destruct (dict_get k (reverse_index _)); simpl; auto 10.
    - exists r. auto 10. }
  destruct Hcm0 as (r1 & H1 & Hm & Hrest).
  rewrite build_component_map_unfold, second_pass_get in H1.
  destruct (dict_get k (first_pass graph)) as [r0|] eqn:E0; [|discriminate].
  exists r0. split; [reflexivity|].
  assert (Hnone : module r0 = None).
  { eapply (first_pass_unassigned graph []); [discriminate|exact E0]. }
  split; [exact Hnone|].
  assert (Hin : existsb (String.eqb k) (dict_keys (first_pass graph)) = true).
  { apply existsb_eqb_In. eapply dict_get_Some_key; eauto. }
  rewrite Hin in H1. injection H1 as <-.
  destruct Hrest as (-> & -> & -> & -> & -> & ->). rewrite Hm.
  destruct (dict_get k (component_to_module (parse_module_tree tree))); simpl; auto 10.
Qed.

(** X5. After construction, the [module] of every component of the
    component map is its entry in [component_to_module], and [None] when
    no module lists it. *)
Theorem component_module_is_owner :
  forall tree graph c r,
    dict_get c (component_map (init tree graph)) = Some r ->
    module r = dict_get c (component_to_module (parse_module_tree tree))
    /\ (forall m, module r = Some m -> lists_component tree m c)
    /\ ((forall m, ~ lists_component tree m c) -> module r = None).
Proof.
  intros tree graph c r Hget.
  destruct (built_record tree graph c r Hget) as (r0 & _ & _ & Hm & _).
  split; [exact Hm|]. split.
  - intros m E. rewrite Hm in E.
    rewrite parse_module_tree_visits, component_to_module_fold_visits,
      fold_set_last in E. simpl in E.
    fold (module_listings tree) in E.
    destruct (dict_get c (rev (module_listings tree))) as [m'|] eqn:E';
      [|discriminate].
    injection E as ->. apply dict_get_In, in_rev in E'.
    now apply in_module_listings.
  - intros Hno. rewrite Hm.
    destruct (dict_get c (component_to_module (parse_module_tree tree)))
      as [m|] eqn:E; [|reflexivity].
    exfalso. apply (Hno m).
    rewrite parse_module_tree_visits, component_to_module_fold_visits,
      fold_set_last in E. simpl in E.
    fold (module_listings tree) in E.
    destruct (dict_get c (rev (module_listings tree))) as [m'|] eqn:E';
      [|discriminate].
    injection E as ->. apply dict_get_In, in_rev in E'.
    now apply in_module_listings.
Qed.

Lemma component_module_is_owner_witness :
  exists r f,
    dict_get "shared.C" (component_map (init shared_component_tree shared_component_graph))
    = Some r
    /\ module r = Some "second"
    /\ dict_get "free.F" (component_map (init shared_component_tree shared_component_graph))
       = Some f
    /\ module f = None.
Proof.
  eexists. eexists. split; [reflexivity|]. split; [|split; [reflexivity|]].
  - destruct (component_module_is_owner shared_component_tree shared_component_graph
                "shared.C" _ eq_refl) as (E & _).
    rewrite E. reflexivity.
  - destruct (component_module_is_owner shared_component_tree shared_component_graph
                "free.F" _ eq_refl) as (E & _).
    rewrite E. reflexivity.
Defined.

Lemma dict_set_fresh {V : Type} (d : dict V) k v :
  dict_get k d = None -> dict_set k v d = d ++ [(k, v)].
Proof.
  induction d as [|[k' v'] d IH]; simpl; auto.
  destruct (String.eqb k k'); [discriminate|]. intros H. now rewrite IH.
Qed.

Lemma dict_set_present_keys {V : Type} (d : dict V) k v r :
  dict_get k d = Some r -> dict_keys (dict_set k v d) = dict_keys d.
Proof. intros H. rewrite dict_keys_set. unfold dict_mem. now rewrite H. Qed.

Lemma first_pass_distinct graph : forall acc,
  NoDup (dict_keys acc ++ dict_keys graph) ->
  fold_left (fun cm kv => dict_set (fst kv) (new_record (fst kv) (snd kv)) cm) graph acc
  = acc ++ map (fun kv => (fst kv, new_record (fst kv) (snd kv))) graph.
Proof.
  induction graph as [|[k data] graph IH]; intros acc Hnd; simpl.
  - now rewrite app_nil_r.
  - simpl in Hnd. rewrite dict_set_fresh.
    + rewrite IH.
      * now rewrite <- app_assoc.
      * unfold dict_keys in *. rewrite map_app, <- app_assoc. exact Hnd.
    + apply dict_get_None. intros Hin.
      apply NoDup_remove_2 in Hnd. apply Hnd. apply in_app_iff. now left.
Qed.

Lemma second_pass_keys (c2m : dict string) ids : forall cm : dict ComponentRecord,
  dict_keys
    (fold_left
       (fun cm comp_id =>
          match dict_get comp_id c2m, dict_get comp_id cm with
          | Some m, Some r => dict_set comp_id (set_module (Some m) r) cm
          | _, _ => cm
          end)
       ids cm)
  = dict_keys cm.
Proof.
  induction ids as [|x ids IH]; intros cm; simpl; auto.
  rewrite IH. destruct (dict_get x c2m); auto.
  destruct (dict_get x cm) eqn:E; auto.
  eapply dict_set_present_keys; eauto.
Qed.

Lemma attach_dependents_keys reverse : forall cm,
  dict_keys (attach_dependents reverse cm) = dict_keys cm.
Proof.
  unfold attach_dependents.
  induction reverse as [|kv reverse IH]; intros cm; simpl; auto.
  rewrite IH. destruct (dict_get (fst kv) cm) eqn:E; auto.
  eapply dict_set_present_keys; eauto.
Qed.

Lemma component_map_keys tree graph :
  dict_keys (component_map (init tree graph)) = dict_keys (first_pass graph).
Proof.
  rewrite component_map_init. unfold build_reverse_dependencies.
  destruct (nonempty _); simpl; rewrite ?attach_dependents_keys;
    now rewrite build_component_map_unfold, second_pass_keys.
Qed.

Lemma component_map_NoDup tree graph :
  NoDup (dict_keys (component_map (init tree graph))).
Proof.
  rewrite component_map_keys. unfold first_pass.
  apply first_pass_fresh. split; [constructor|discriminate].
Qed.

(** X6. For a dependency graph with distinct keys, the component map has
    the keys of the graph in the same order, and the record of an entry
    takes [id], [name], [component_type], [file_path], [relative_path] and
    [depends_on] from the entry, with the defaults of the source for the
    absent ones; [depends_on] is kept as it is, dangling ids included. *)
Theorem component_map_mirrors_graph :
  forall tree graph,
    NoDup (dict_keys graph) ->
    dict_keys (component_map (init tree graph)) = dict_keys graph
    /\ forall k data,
         In (k, data) graph ->
         exists r,
           dict_get k (component_map (init tree graph)) = Some r
           /\ cid r = py_get (cd_id data) k
           /\ name r = py_get (cd_name data) (last (split_dot k) EmptyString)
           /\ component_type r = py_get (cd_component_type data) "unknown"
           /\ file_path r = py_get (cd_file_path data) ""
           /\ relative_path r = py_get (cd_relative_path data) ""
           /\ depends_on r = py_get (cd_depends_on data) []
           /\ dependency_count r = List.length (py_get (cd_depends_on data) []).
Proof.
  intros tree graph Hnd.
  assert (Hfirst : first_pass graph
                   = map (fun kv => (fst kv, new_record (fst kv) (snd kv))) graph).
  { unfold first_pass. now rewrite first_pass_distinct. }
  assert (Hkeys : dict_keys (component_map (init tree graph)) = dict_keys graph).
  { rewrite component_map_keys, Hfirst. unfold dict_keys. rewrite map_map.
    now apply map_ext. }
  split; [exact Hkeys|].
  intros k data Hin.
  assert (Hk : In k (dict_keys (component_map (init tree graph)))).
  { rewrite Hkeys. change k with (fst (k, data)). now apply in_map. }
  apply dict_key_get in Hk. destruct Hk as [r Hr]. exists r. split; [exact Hr|].
  destruct (built_record tree graph k r Hr)
    as (r0 & H0 & _ & _ & -> & -> & -> & -> & -> & Hd).
  destruct (init_component tree graph k r Hr) as (_ & _ & _ & _ & Hdc & _).
  assert (r0 = new_record k data).
  { assert (E : dict_get k (first_pass graph) = Some (new_record k data)).
    { apply In_dict_get.
      - rewrite Hfirst. unfold dict_keys. rewrite map_map.
        erewrite map_ext; [exact Hnd|reflexivity].
      - rewrite Hfirst. apply in_map_iff. exists (k, data). auto. }
    congruence. }
  subst r0. rewrite Hdc, Hd. simpl. auto 10.
Qed.

Lemma component_map_mirrors_graph_witness :
  dict_keys (component_map (init shared_component_tree shared_component_graph))
  = ["shared.C"; "first.A"; "free.F"]
  /\ exists r,
       dict_get "first.A"
         (component_map (init shared_component_tree shared_component_graph)) = Some r
       /\ name r = "A"
       /\ depends_on r = ["shared.C"; "missing.Z"; "shared.C"].
Proof.
  assert (Hnd : NoDup (dict_keys shared_component_graph)).
  { simpl. repeat constructor; simpl; intuition discriminate. }
  destruct (component_map_mirrors_graph shared_component_tree shared_component_graph Hnd)
    as [Hk H].
  split; [exact Hk|].
  destruct (H "first.A" (comp_with_deps ["shared.C"; "missing.Z"; "shared.C"]))
    as (r & Hr & _ & Hn & _ & _ & _ & Hd & _).
  - simpl. auto.
  - exists r. auto.
Defined.

(** ** The reverse map *)

Lemma reverse_deps_init tree graph :
  reverse_deps (init tree graph)
  = snd (build_reverse_dependencies
           (build_component_map graph (parse_module_tree tree))).
Proof. unfold init. now destruct (build_reverse_dependencies _). Qed.

Lemma reverse_inner_list deps : forall reverse src b,
  dependents_of (fold_left (fun rv dep_id => dd_append dep_id src rv) deps reverse) b
  = dependents_of reverse b ++ repeat src (count_occ string_dec deps b).
Proof.
  induction deps as [|d deps IH]; intros reverse src b; simpl.
  - now rewrite app_nil_r.
  - rewrite IH, dependents_of_dd_append.
    destruct (string_dec d b) as [->|Hne].
    + rewrite String.eqb_refl. simpl. now rewrite <- app_assoc.
    + destruct (String.eqb b d) eqn:E; [|reflexivity].
      apply String.eqb_eq in E. congruence.
Qed.

Lemma reverse_outer_list (items : dict ComponentRecord) : forall reverse b,
  dependents_of
    (fold_left
       (fun rv (kv : string * ComponentRecord) =>
          fold_left (fun rv dep_id => dd_append dep_id (fst kv) rv)
            (depends_on (snd kv)) rv)
       items reverse) b
  = dependents_of reverse b
    ++ flat_map
         (fun kv => repeat (fst kv) (count_occ string_dec (depends_on (snd kv)) b))
         items.
Proof.
  induction items as [|kv items IH]; intros reverse b; simpl.
  - now rewrite app_nil_r.
  - now rewrite IH, reverse_inner_list, <- app_assoc.
Qed.

Lemma reverse_inner_nonempty deps : forall (reverse : dict (list string)) src,
  (forall b l, dict_get b reverse = Some l -> l <> []) ->
  forall b l,
    dict_get b (fold_left (fun rv dep_id => dd_append dep_id src rv) deps reverse)
    = Some l -> l <> [].
Proof.
  induction deps as [|d deps IH]; intros reverse src Hrev; simpl; [exact Hrev|].
  apply IH. unfold dd_append. apply dict_set_all; [exact Hrev|].
  destruct (dict_get d reverse) as [l|]; [|discriminate].
  destruct l; discriminate.
Qed.

Lemma reverse_index_nonempty cm b l :
  dict_get b (reverse_index cm) = Some l -> l <> [].
Proof.
  unfold reverse_index.
  assert (Hgen : forall reverse : dict (list string),
             (forall b l, dict_get b reverse = Some l -> l <> []) ->
             forall b l,
               dict_get b
                 (fold_left
                    (fun rv (kv : string * ComponentRecord) =>
                       fold_left (fun rv dep_id => dd_append dep_id (fst kv) rv)
                         (depends_on (snd kv)) rv)
                    cm reverse) = Some l -> l <> []).
  { induction cm as [|kv cm IH]; intros reverse Hrev; simpl; [exact Hrev|].
    apply IH. now apply reverse_inner_nonempty. }
  apply Hgen. discriminate.
Qed.

Lemma dict_set_map_inv {V B : Type} (g : string * V -> B) (d : dict V) k v r :
  dict_get k d = Some r -> (forall k', g (k', v) = g (k', r)) ->
  map g (dict_set k v d) = map g d.
Proof.
  intros Hget Hg. induction d as [|[k' v'] d IH]; simpl in *; [discriminate|].
  destruct (String.eqb k k'); simpl.
  - injection Hget as ->. now rewrite Hg.
  - now rewrite IH.
Qed.

Lemma attach_dependents_edges reverse : forall cm,
  map (fun kv => (fst kv, depends_on (snd kv))) (attach_dependents reverse cm)
  = map (fun kv => (fst kv, depends_on (snd kv))) cm.
Proof.
  unfold attach_dependents.
  induction reverse as [|kv reverse IH]; intros cm; simpl; auto.
  rewrite IH. destruct (dict_get (fst kv) cm) as [r|] eqn:E; auto.
  apply (dict_set_map_inv _ _ _ _ r); auto.
Qed.

(** X7. The reverse map returned by [_build_reverse_dependencies] lists,
    under each id [b], the components that depend on [b], in the order of
    the component map and once per edge; its keys are the ids some
    component depends on, dangling ids included; no list is empty; and for
    a component of the map it is the [depended_by] of its record. *)
Theorem reverse_deps_content :
  forall tree graph b,
    let self := init tree graph in
    dependents_of (reverse_deps self) b
    = flat_map
        (fun kv => repeat (fst kv) (count_occ string_dec (depends_on (snd kv)) b))
        (component_map self)
    /\ (In b (dict_keys (reverse_deps self)) <->
        exists a ra, dict_get a (component_map self) = Some ra
                     /\ In b (depends_on ra))
    /\ (forall l, dict_get b (reverse_deps self) = Some l -> l <> [])
    /\ (forall rb, dict_get b (component_map self) = Some rb ->
          depended_by rb = dependents_of (reverse_deps self) b).
Proof.
  intros tree graph b self. subst self.
  set (cm0 := build_component_map graph (parse_module_tree tree)).
  assert (Hrev : reverse_deps (init tree graph)
                 = if nonempty cm0 then reverse_index cm0 else []).
  { rewrite reverse_deps_init. fold cm0. unfold build_reverse_dependencies.
    now destruct (nonempty cm0). }
  assert (Hedges : map (fun kv => (fst kv, depends_on (snd kv)))
                     (component_map (init tree graph))
                   = map (fun kv => (fst kv, depends_on (snd kv))) cm0).
  { rewrite component_map_init. fold cm0. unfold build_reverse_dependencies.
    destruct (nonempty cm0); simpl; [apply attach_dependents_edges|reflexivity]. }
  assert (Hlist : dependents_of (reverse_deps (init tree graph)) b
                  = flat_map
                      (fun kv => repeat (fst kv)
                                   (count_occ string_dec (depends_on (snd kv)) b))
                      (component_map (init tree graph))).
  { assert (Hf : forall l : dict ComponentRecord,
               flat_map
                 (fun kv => repeat (fst kv)
                              (count_occ string_dec (depends_on (snd kv)) b)) l
               = flat_map
                   (fun p : string * list string =>
                      repeat (fst p) (count_occ string_dec (snd p) b))
                   (map (fun kv => (fst kv, depends_on (snd kv))) l)).
    { intros l. induction l as [|kv l IHl]; simpl; congruence. }
    rewrite Hf, Hedges, <- Hf, Hrev.
    destruct (nonempty cm0) eqn:Hne.
    - unfold reverse_index. now rewrite reverse_outer_list.
    - destruct cm0; [reflexivity|discriminate]. }
  assert (Hnonempty : forall l, dict_get b (reverse_deps (init tree graph)) = Some l ->
                                l <> []).
  { intros l. rewrite Hrev. destruct (nonempty cm0); [|discriminate].
    apply reverse_index_nonempty. }
  split; [exact Hlist|]. split; [|split; [exact Hnonempty|]].
  - pose proof (component_map_NoDup tree graph) as Hnd. split.
    + intros Hin. apply dict_key_get in Hin. destruct Hin as [l Hl].
      pose proof (Hnonempty l Hl) as Hne.
      assert (E : dependents_of (reverse_deps (init tree graph)) b = l).
      { unfold dependents_of. now rewrite Hl. }
      rewrite Hlist in E. destruct l as [|x l]; [congruence|].
      assert (Hx : In x (flat_map
                           (fun kv => repeat (fst kv)
                                        (count_occ string_dec (depends_on (snd kv)) b))
                           (component_map (init tree graph)))).
      { rewrite E. now left. }
      apply in_flat_map in Hx. destruct Hx as ([a ra] & Hin & Hrep).
      simpl in Hrep. exists a, ra. split; [now apply In_dict_get|].
      apply (count_occ_In string_dec).
      destruct (count_occ string_dec (depends_on ra) b); [contradiction|lia].
    + intros (a & ra & Ha & Hb).
      destruct (dict_get b (reverse_deps (init tree graph))) as [l|] eqn:E.
      * eapply dict_get_Some_key; eauto.
      * exfalso.
        assert (Hnil : dependents_of (reverse_deps (init tree graph)) b = []).
        { unfold dependents_of. now rewrite E. }
        rewrite Hlist in Hnil.
        assert (Hin : In a (flat_map
                              (fun kv => repeat (fst kv)
                                           (count_occ string_dec (depends_on (snd kv)) b))
                              (component_map (init tree graph)))).
        { apply in_flat_map. exists (a, ra). split; [now apply dict_get_In|].
          simpl. apply (count_occ_In string_dec) in Hb.
          destruct (count_occ string_dec (depends_on ra) b); [lia|now left]. }
        rewrite Hnil in Hin. contradiction.
  - intros rb Hb.
    destruct (init_component tree graph b rb Hb) as (_ & _ & _ & Hby & _).
    fold cm0 in Hby. rewrite Hby, Hrev.
    destruct (nonempty cm0) eqn:Hne; [reflexivity|].
    unfold cm0 in Hne. rewrite component_map_init in Hb. fold cm0 in Hb.
    unfold build_reverse_dependencies in Hb. fold cm0 in Hne. rewrite Hne in Hb.
    simpl in Hb. destruct cm0; [discriminate|discriminate].
Qed.

Lemma reverse_deps_content_witness :
  let self := init shared_component_tree shared_component_graph in
  dependents_of (reverse_deps self) "shared.C" = ["first.A"; "first.A"]
  /\ In "missing.Z" (dict_keys (reverse_deps self))
  /\ ~ In "free.F" (dict_keys (reverse_deps self)).
Proof.
  cbv zeta.
  destruct (reverse_deps_content shared_component_tree shared_component_graph
              "shared.C") as (E & _).
  destruct (reverse_deps_content shared_component_tree shared_component_graph
              "missing.Z") as (_ & Hz & _).
  destruct (reverse_deps_content shared_component_tree shared_component_graph
              "free.F") as (_ & Hf & _).
  split; [rewrite E; reflexivity|]. split.
  - apply Hz. exists "first.A". eexists. split; [reflexivity|]. simpl. auto.
  - intros Hin. apply Hf in Hin. destruct Hin as (a & ra & Ha & Hin).
    apply dict_get_In in Ha. vm_compute in Ha.
    destruct Ha as [[= <- <-]|[[= <- <-]|[[= <- <-]|[]]]]; simpl in Hin;
      intuition discriminate.
Defined.

(** ** Component-level analysis: entries and module sets *)

Lemma entries_count cm comp_module ids :
  List.length (flat_map (internal_entry cm comp_module) ids)
  + List.length (flat_map (external_entry cm comp_module) ids)
  = List.length (filter (fun d => dict_mem d cm) ids).
Proof.
  induction ids as [|x ids IH]; simpl; auto.
  rewrite !length_app. unfold internal_entry at 1, external_entry at 1, dict_mem at 1.
  destruct (dict_get x cm) as [c|]; simpl; [|lia].
  destruct (opt_eqb (module c) comp_module); simpl; lia.
Qed.

Lemma internal_entry_data cm comp_module ids e :
  In e (flat_map (internal_entry cm comp_module) ids) ->
  In (di_id e) ids
  /\ di_module e = None
  /\ exists c, dict_get (di_id e) cm = Some c /\ module c = comp_module
               /\ di_name e = name c /\ di_type e = component_type c.
Proof.
  intros Hin. apply in_flat_map in Hin. destruct Hin as (x & Hx & Hin).
  unfold internal_entry in Hin. destruct (dict_get x cm) as [c|] eqn:E; [|easy].
  destruct (opt_eqb (module c) comp_module) eqn:Em; [|easy].
  destruct Hin as [<-|[]]. simpl. split; auto. split; auto.
  exists c. apply opt_eqb_eq in Em. auto.
Qed.

Lemma external_entry_data cm comp_module ids e :
  In e (flat_map (external_entry cm comp_module) ids) ->
  In (di_id e) ids
  /\ exists c, dict_get (di_id e) cm = Some c /\ module c <> comp_module
               /\ di_module e = Some (module c)
               /\ di_name e = name c /\ di_type e = component_type c.
Proof.
  intros Hin. apply in_flat_map in Hin. destruct Hin as (x & Hx & Hin).
  unfold external_entry in Hin. destruct (dict_get x cm) as [c|] eqn:E; [|easy].
  destruct (opt_eqb (module c) comp_module) eqn:Em; [easy|].
  destruct Hin as [<-|[]]. simpl. split; auto.
  exists c. apply opt_eqb_neq in Em. auto.
Qed.

(** X8. In the result of [analyze_dependencies] for a component of the
    map, the internal and external dependencies together are as many as
    the [depends_on] entries that are in the component map, so dangling
    ids appear in neither list; every entry carries the name and type of
    the component it names, an internal entry has no ["module"] key and an
    external entry carries the module of its component.  The same holds
    for the dependents. *)
Theorem dependency_entries :
  forall self component_id comp_info,
    dict_get component_id (component_map self) = Some comp_info ->
    let cm := component_map self in
    let r := analyze_dependencies self component_id in
    List.length (internal_dependencies r) + List.length (external_dependencies r)
    = List.length (filter (fun d => dict_mem d cm) (depends_on comp_info))
    /\ List.length (internal_dependents r) + List.length (external_dependents r)
       = List.length (filter (fun d => dict_mem d cm) (depended_by comp_info))
    /\ (forall e,
          In e (internal_dependencies r) \/ In e (internal_dependents r) ->
          di_module e = None
          /\ exists c, dict_get (di_id e) cm = Some c
                       /\ module c = module comp_info
                       /\ di_name e = name c /\ di_type e = component_type c)
    /\ (forall e,
          In e (external_dependencies r) \/ In e (external_dependents r) ->
          exists c, dict_get (di_id e) cm = Some c
                    /\ module c <> module comp_info
                    /\ di_module e = Some (module c)
                    /\ di_name e = name c /\ di_type e = component_type c)
    /\ (forall e,
          In e (internal_dependencies r) \/ In e (external_dependencies r) ->
          In (di_id e) (depends_on comp_info))
    /\ (forall e,
          In e (internal_dependents r) \/ In e (external_dependents r) ->
          In (di_id e) (depended_by comp_info)).
Proof.
  intros self component_id comp_info Hget cm r.
  destruct (analyze_dependencies_found self component_id comp_info Hget)
    as (_ & Hi & Hx & Hi' & Hx').
  fold r in Hi, Hx, Hi', Hx'. fold cm in Hi, Hx, Hi', Hx'.
  rewrite Hi, Hx, Hi', Hx'.
  split; [apply entries_count|]. split; [apply entries_count|].
  split; [|split; [|split]].
  - intros e [H|H]; apply internal_entry_data in H; tauto.
  - intros e [H|H]; apply external_entry_data in H; tauto.
  - intros e [H|H]; [apply internal_entry_data in H|apply external_entry_data in H];
      tauto.
  - intros e [H|H]; [apply internal_entry_data in H|apply external_entry_data in H];
      tauto.
Qed.

Lemma dependency_entries_witness :
  let self := init hub_tree hub_graph in
  exists info,
    dict_get "hub.H" (component_map self) = Some info
    /\ List.length (internal_dependencies (analyze_dependencies self "hub.H"))
       + List.length (external_dependencies (analyze_dependencies self "hub.H"))
       = List.length (filter (fun d => dict_mem d (component_map self))
                        (depends_on info))
    /\ List.length (depends_on info) = 5
    /\ List.length (filter (fun d => dict_mem d (component_map self))
                      (depends_on info)) = 4.
Proof.
  cbv zeta.
  assert (Hget : exists info,
             dict_get "hub.H" (component_map (init hub_tree hub_graph)) = Some info
             /\ depends_on info
                = ["zeta.Z"; "alpha.A"; "hub.Helper"; "alpha.B"; "ext.X"]).
  { vm_compute. eexists. split; reflexivity. }
  destruct Hget as (info & Hget & Hdeps). exists info. split; [exact Hget|].
  destruct (dependency_entries (init hub_tree hub_graph) "hub.H" info Hget)
    as (Hlen & _).
  split; [exact Hlen|]. rewrite Hdeps. split; [reflexivity|].
  vm_compute. reflexivity.
Defined.

Lemma ascii_compare_refl c : Ascii.compare c c = Eq.
Proof. unfold Ascii.compare. apply N.compare_refl. Qed.

Lemma string_lt_trans a : forall b c,
  String.compare a b = Lt -> String.compare b c = Lt -> String.compare a c = Lt.
Proof.
  induction a as [|x a IH]; intros [|y b] [|z c]; simpl; try discriminate; auto.
  destruct (Ascii.compare x y) eqn:Exy; try discriminate;
    destruct (Ascii.compare y z) eqn:Eyz; try discriminate.
  - apply Ascii.compare_eq_iff in Exy, Eyz. subst.
    rewrite ascii_compare_refl. apply IH.
  - apply Ascii.compare_eq_iff in Exy. subst. now rewrite Eyz.
  - apply Ascii.compare_eq_iff in Eyz. subst. now rewrite Exy.
  - intros _ _. unfold Ascii.compare in *.
    rewrite N.compare_lt_iff in *.
    assert (H : (N_of_ascii x < N_of_ascii z)%N) by (eapply N.lt_trans; eauto).
    apply N.compare_lt_iff in H. now rewrite H.
Qed.

Lemma string_lt_irrefl a : String.compare a a <> Lt.
Proof.
  induction a as [|x a IH]; simpl; [discriminate|].
  now rewrite ascii_compare_refl.
Qed.

Lemma set_add_In x y s : In x (set_add y s) <-> x = y \/ In x s.
Proof.
  induction s as [|h s IH]; simpl.
  - split; intros [H|H]; auto.
  - destruct (String.compare y h) eqn:E; simpl.
    + apply String.compare_eq_iff in E. subst h. split; [auto|].
      intros [->|H]; auto.
    + split; intros [H|H]; auto.
    + rewrite IH. split; [intros [H|[H|H]]|intros [H|[H|H]]]; auto.
Qed.

Lemma set_add_increasing y s : increasing s -> increasing (set_add y s).
Proof.
  unfold increasing. induction 1 as [|h s Hs IH Hall]; simpl.
  - repeat constructor.
  - destruct (String.compare y h) eqn:E.
    + now constructor.
    + constructor; [now constructor|]. constructor; auto.
      eapply Forall_impl; [|exact Hall]. intros z Hz. simpl in Hz.
      eapply string_lt_trans; eauto.
    + constructor; auto. apply Forall_forall. intros z Hz.
      apply set_add_In in Hz. destruct Hz as [->|Hz].
      * rewrite String.compare_antisym, E. reflexivity.
      * rewrite Forall_forall in Hall. auto.
Qed.

Lemma fold_set_add ms : forall s,
  (increasing s -> increasing (fold_left (fun s m => set_add m s) ms s))
  /\ forall x, In x (fold_left (fun s m => set_add m s) ms s) <-> In x s \/ In x ms.
Proof.
  induction ms as [|m ms IH]; intros s; simpl.
  - split; [auto|]. intros x. tauto.
  - destruct (IH (set_add m s)) as [H1 H2]. split.
    + intros Hs. apply H1. now apply set_add_increasing.
    + intros x. rewrite H2, set_add_In. split.
      * intros [[->|H]|H]; auto.
      * intros [H|[<-|H]]; auto.
Qed.

Lemma increasing_NoDup l : increasing l -> NoDup l.
Proof.
  induction 1 as [|h s Hs IH Hall]; constructor; auto.
  intros Hin. rewrite Forall_forall in Hall.
  now apply (string_lt_irrefl h), Hall.
Qed.

Lemma classify_fold_modules cm comp_module ids : forall st,
  snd (fold_left (classify_step cm comp_module) ids st)
  = fold_left (fun s m => set_add m s) (external_modules cm comp_module ids) (snd st).
Proof.
  induction ids as [|x ids IH]; intros st; [reflexivity|].
  cbn [fold_left]. rewrite IH. unfold external_modules. cbn [flat_map].
  rewrite fold_left_app. f_equal.
  destruct st as [[i e] s]. unfold classify_step.
  destruct (dict_get x cm) as [c|]; [|reflexivity].
  destruct (opt_eqb (module c) comp_module); [reflexivity|].
  destruct (module c) as [m|]; [|reflexivity].
  now destruct (truthy (Some m)).
Qed.

Lemma in_external_modules cm comp_module ids m :
  In m (external_modules cm comp_module ids) <->
  exists dep_id c,
    In dep_id ids /\ dict_get dep_id cm = Some c
    /\ module c = Some m /\ m <> "" /\ comp_module <> Some m.
Proof.
  unfold external_modules. rewrite in_flat_map. split.
  - intros (x & Hx & Hin). destruct (dict_get x cm) as [c|] eqn:E; [|easy].
    destruct (opt_eqb (module c) comp_module) eqn:Em; [easy|].
    apply opt_eqb_neq in Em.
    destruct (module c) as [m'|] eqn:Emod; [|easy].
    unfold truthy in Hin. destruct (String.eqb m' "") eqn:E0; simpl in Hin; [easy|].
    destruct Hin as [->|[]]. apply String.eqb_neq in E0.
    exists x, c. repeat split; auto; congruence.
  - intros (x & c & Hx & Hc & Hm & Hne & Hcm). exists x. split; auto.
    rewrite Hc, Hm. destruct (opt_eqb (Some m) comp_module) eqn:Em.
    + apply opt_eqb_eq in Em. congruence.
    + unfold truthy. apply String.eqb_neq in Hne. rewrite Hne. simpl. auto.
Qed.

Lemma analyze_dependencies_modules self component_id comp_info :
  dict_get component_id (component_map self) = Some comp_info ->
  dependency_modules (analyze_dependencies self component_id)
  = fold_left (fun s m => set_add m s)
      (external_modules (component_map self) (module comp_info)
         (depends_on comp_info)) []
  /\ dependent_modules (analyze_dependencies self component_id)
     = fold_left (fun s m => set_add m s)
         (external_modules (component_map self) (module comp_info)
            (depended_by comp_info)) [].
Proof.
  intros Hget. unfold analyze_dependencies.
  rewrite (nonempty_get _ _ _ Hget).
  unfold dict_mem. rewrite Hget. simpl.
  unfold classify.
  pose proof (classify_fold_modules (component_map self) (module comp_info)
                (depends_on comp_info) ([], [], [])) as H1.
  pose proof (classify_fold_modules (component_map self) (module comp_info)
                (depended_by comp_info) ([], [], [])) as H2.
  destruct (fold_left _ (depends_on comp_info) _) as [[i e] s].
  destruct (fold_left _ (depended_by comp_info) _) as [[i' e'] s'].
  simpl in *. subst. auto.
Qed.

(** X9. For a component of the map, [dependency_modules] is strictly
    increasing (sorted, without repetition) and holds exactly the
    non-empty module paths, other than the component's own module, of the
    [depends_on] targets present in the component map; likewise
    [dependent_modules] for the [depended_by] sources. *)
Theorem dependency_modules_sorted_set :
  forall self component_id comp_info,
    dict_get component_id (component_map self) = Some comp_info ->
    let cm := component_map self in
    let r := analyze_dependencies self component_id in
    increasing (dependency_modules r)
    /\ NoDup (dependency_modules r)
    /\ (forall m,
          In m (dependency_modules r) <->
          exists dep_id c,
            In dep_id (depends_on comp_info) /\ dict_get dep_id cm = Some c
            /\ module c = Some m /\ m <> "" /\ module comp_info <> Some m)
    /\ increasing (dependent_modules r)
    /\ NoDup (dependent_modules r)
    /\ (forall m,
          In m (dependent_modules r) <->
          exists dep_id c,
            In dep_id (depended_by comp_info) /\ dict_get dep_id cm = Some c
            /\ module c = Some m /\ m <> "" /\ module comp_info <> Some m).
Proof.
  intros self component_id comp_info Hget cm r.
  destruct (analyze_dependencies_modules self component_id comp_info Hget) as [H1 H2].
  fold r in H1, H2. fold cm in H1, H2. rewrite H1, H2.
  assert (Hnil : increasing []) by constructor.
  destruct (fold_set_add (external_modules cm (module comp_info) (depends_on comp_info))
              []) as [Hs1 Hin1].
  destruct (fold_set_add (external_modules cm (module comp_info) (depended_by comp_info))
              []) as [Hs2 Hin2].
  split; [auto|]. split; [apply increasing_NoDup; auto|]. split.
  - intros m. rewrite Hin1, in_external_modules. simpl. tauto.
  - split; [auto|]. split; [apply increasing_NoDup; auto|].
    intros m. rewrite Hin2, in_external_modules. simpl. tauto.
Qed.

Lemma dependency_modules_sorted_set_witness :
  let r := analyze_dependencies (init hub_tree hub_graph) "hub.H" in
  dependency_modules r = ["alpha"; "zeta"]
  /\ increasing (dependency_modules r)
  /\ NoDup (dependency_modules r).
Proof.
  cbv zeta.
  assert (Hget : exists info,
             dict_get "hub.H" (component_map (init hub_tree hub_graph)) = Some info).
  { vm_compute. eexists. reflexivity. }
  destruct Hget as (info & Hget).
  destruct (dependency_modules_sorted_set (init hub_tree hub_graph) "hub.H" info Hget)
    as (Hinc & Hnd & _).
  split; [vm_compute; reflexivity|]. split; [exact Hinc|exact Hnd].
Defined.

(** ** Module-level analysis: groups *)

Section GroupFold.
Context {X R : Type}.
Variable key : X -> option (string * R).

Lemma group_fold_in xs : forall d m r,
  grouped_in (fold_left (group_step key) xs d) m r <->
  grouped_in d m r \/ exists x, In x xs /\ key x = Some (m, r).
Proof.
  induction xs as [|x xs IH]; intros d m r; simpl.
  - split; [auto|]. intros [H|(x & [] & _)]. exact H.
  - rewrite IH. unfold group_step. destruct (key x) as [[m' r']|] eqn:E.
    + rewrite grouped_in_dd_append. split.
      * intros [[H|[-> ->]]|(y & Hy & Hk)]; eauto.
      * intros [H|(y & [<-|Hy] & Hk)]; eauto.
        left. right. split; congruence.
    + split.
      * intros [H|(y & Hy & Hk)]; eauto.
      * intros [H|(y & [<-|Hy] & Hk)]; eauto. congruence.
Qed.

Lemma group_fold_NoDup xs : forall d,
  NoDup (dict_keys d) -> NoDup (dict_keys (fold_left (group_step key) xs d)).
Proof.
  induction xs as [|x xs IH]; intros d Hnd; simpl; auto.
  apply IH. unfold group_step. destruct (key x) as [[m r]|]; auto.
  now apply dd_append_NoDup.
Qed.

Lemma group_fold_nonempty xs : forall d,
  (forall m l, dict_get m d = Some l -> l <> []) ->
  forall m l, dict_get m (fold_left (group_step key) xs d) = Some l -> l <> [].
Proof.
  induction xs as [|x xs IH]; intros d Hd; simpl; [exact Hd|].
  apply IH. unfold group_step. destruct (key x) as [[m r]|]; [|exact Hd].
  unfold dd_append. apply dict_set_all; [exact Hd|].
  destruct (dict_get m d) as [l|]; [|discriminate]. destruct l; discriminate.
Qed.

End GroupFold.

Lemma pair_step_snd cm module_path pairs : forall st,
  snd (fold_left (pair_step cm module_path) pairs st)
  = fold_left (group_step (dep_key cm module_path)) pairs (snd st).
Proof.
  induction pairs as [|[c d] pairs IH]; intros st; [reflexivity|].
  cbn [fold_left]. rewrite IH. f_equal.
  destruct st as [i x]. unfold pair_step, module_dep_step, group_step, dep_key.
  cbn [fst snd].
  destruct (dict_get d cm) as [dc|]; [|reflexivity].
  destruct (opt_eqb (module dc) (Some module_path)); [reflexivity|].
  destruct (module dc) as [m|]; [|reflexivity].
  now destruct (truthy (Some m)).
Qed.

Lemma module_comp_step_snd cm module_path comps : forall st,
  snd (fold_left (module_comp_step cm module_path) comps st)
  = fold_left (group_step (dependent_key cm module_path))
      (module_dependent_pairs cm comps) (snd st).
Proof.
  induction comps as [|c comps IH]; intros st; [reflexivity|].
  cbn [fold_left module_dependent_pairs flat_map]. rewrite IH.
  fold (module_dependent_pairs cm comps). rewrite fold_left_app. f_equal.
  destruct st as [deps xd]. unfold module_comp_step, dict_mem.
  destruct (dict_get c cm) as [info|] eqn:E.
  - rewrite (nonempty_get _ _ _ E). simpl.
    generalize (depended_by info) xd. clear.
    intros l. induction l as [|d l IHl]; intros xd; simpl; auto.
    rewrite <- IHl. f_equal.
    unfold module_dependent_step, group_step, dependent_key. cbn [fst snd].
    destruct (dict_get d cm) as [dc|]; [|reflexivity].
    destruct (module dc) as [m|]; [|reflexivity].
    now destruct (truthy (Some m) && negb (opt_eqb (Some m) (Some module_path))).
  - simpl. now rewrite orb_true_r.
Qed.

Lemma in_module_dependent_pairs cm comps c d :
  In (c, d) (module_dependent_pairs cm comps) <->
  In c comps /\ exists info, dict_get c cm = Some info /\ In d (depended_by info).
Proof.
  unfold module_dependent_pairs. rewrite in_flat_map. split.
  - intros [c' [Hc' Hin]]. destruct (dict_get c' cm) as [info|] eqn:E; [|easy].
    apply in_map_iff in Hin. destruct Hin as [d' [[= <- <-] Hd]].
    split; auto. eauto.
  - intros [Hc [info [Hi Hd]]]. exists c. split; auto. rewrite Hi.
    now apply in_map.
Qed.

Lemma dep_key_Some cm module_path p m r :
  dep_key cm module_path p = Some (m, r) <->
  r = mkRelationship (fst p) (snd p)
  /\ exists dc, dict_get (snd p) cm = Some dc /\ module dc = Some m
                /\ m <> module_path /\ m <> "".
Proof.
  unfold dep_key. destruct (dict_get (snd p) cm) as [dc|].
  - destruct (opt_eqb (module dc) (Some module_path)) eqn:Em.
    + apply opt_eqb_eq in Em. split; [discriminate|].
      intros (_ & dc' & [= <-] & Hm & Hne & _). congruence.
    + apply opt_eqb_neq in Em. destruct (module dc) as [m'|] eqn:Emod.
      * unfold truthy. destruct (String.eqb m' "") eqn:E0; simpl.
        -- apply String.eqb_eq in E0. split; [discriminate|].
           intros (_ & dc' & [= <-] & Hm & _ & Hne). congruence.
        -- apply String.eqb_neq in E0. split.
           ++ intros [= -> <-]. split; auto. exists dc.
              repeat split; auto; congruence.
           ++ intros (-> & dc' & [= <-] & Hm & _). congruence.
      * split; [discriminate|]. intros (_ & dc' & [= <-] & Hm & _). congruence.
  - split; [discriminate|]. intros (_ & dc' & Hd & _). discriminate.
Qed.

Lemma dependent_key_Some cm module_path p m r :
  dependent_key cm module_path p = Some (m, r) <->
  r = mkRelationship (snd p) (fst p)
  /\ exists dc, dict_get (snd p) cm = Some dc /\ module dc = Some m
                /\ m <> module_path /\ m <> "".
Proof.
  unfold dependent_key. destruct (dict_get (snd p) cm) as [dc|].
  - destruct (module dc) as [m'|] eqn:Emod.
    + unfold truthy, opt_eqb.
      destruct (String.eqb m' "") eqn:E0; simpl.
      * apply String.eqb_eq in E0. split; [discriminate|].
        intros (_ & dc' & [= <-] & Hm & _ & Hne). congruence.
      * apply String.eqb_neq in E0.
        destruct (String.eqb m' module_path) eqn:E1; simpl.
        -- apply String.eqb_eq in E1. split; [discriminate|].
           intros (_ & dc' & [= <-] & Hm & Hne & _). congruence.
        -- apply String.eqb_neq in E1. split.
           ++ intros [= -> <-]. split; auto. exists dc. auto.
           ++ intros (-> & dc' & [= <-] & Hm & _). congruence.
    + split; [discriminate|]. intros (_ & dc' & [= <-] & Hm & _). congruence.
  - split; [discriminate|]. intros (_ & dc' & Hd & _). discriminate.
Qed.

Lemma analyze_module_groups self module_path module_info :
  dict_get module_path (modules (parsed_tree self)) = Some module_info ->
  exists a,
    analyze_module_dependencies self module_path = Ok a
    /\ ma_module a = module_path
    /\ ma_components a = components module_info
    /\ ma_external_dependencies a
       = groups (fold_left (group_step (dep_key (component_map self) module_path))
                   (module_pairs (component_map self) (components module_info)) [])
    /\ ma_external_dependents a
       = groups (fold_left (group_step (dependent_key (component_map self) module_path))
                   (module_dependent_pairs (component_map self)
                      (components module_info)) []).
Proof.
  intros Hget. unfold analyze_module_dependencies. rewrite Hget.
  pose proof (module_comp_step_fst (component_map self) module_path
                (components module_info) ([], [], [])) as Hfst.
  pose proof (module_comp_step_snd (component_map self) module_path
                (components module_info) ([], [], [])) as Hsnd.
  destruct (fold_left (module_comp_step _ _) _ _) as [[i x] xd].
  cbn [fst snd] in Hfst, Hsnd. eexists. split; [reflexivity|].
  cbn [ma_module ma_components ma_external_dependencies ma_external_dependents].
  split; [reflexivity|]. split; [reflexivity|]. split; [|now rewrite Hsnd].
  f_equal.
  pose proof (pair_step_snd (component_map self) module_path
                (module_pairs (component_map self) (components module_info))
                ([], [])) as Hp.
  rewrite <- Hfst in Hp. exact Hp.
Qed.

(** X10. For a module path of the parsed tree, [external_dependents]
    records the pair (dependent, component) under module [m] exactly when
    the component is listed by the queried module and is in the component
    map, the dependent is in its [depended_by] and in the map, and the
    module of the dependent is [m], a non-empty path other than the
    queried one. *)
Theorem module_dependents_classified :
  forall self module_path module_info,
    dict_get module_path (modules (parsed_tree self)) = Some module_info ->
    exists a,
      analyze_module_dependencies self module_path = Ok a
      /\ forall m comp_id dependent_id,
           external_dependent_recorded a m comp_id dependent_id <->
           exists comp_info dc,
             In comp_id (components module_info)
             /\ dict_get comp_id (component_map self) = Some comp_info
             /\ In dependent_id (depended_by comp_info)
             /\ dict_get dependent_id (component_map self) = Some dc
             /\ module dc = Some m /\ m <> module_path /\ m <> "".
Proof.
  intros self module_path module_info Hget.
  destruct (analyze_module_groups self module_path module_info Hget)
    as (a & Ha & _ & _ & _ & Hd).
  exists a. split; [exact Ha|].
  intros m c d. unfold external_dependent_recorded. rewrite Hd, in_groups.
  - rewrite group_fold_in. split.
    + intros [[l [Hl _]]|([c' d'] & Hin & Hk)]; [discriminate|].
      apply dependent_key_Some in Hk. destruct Hk as ([= <- <-] & dc & Hdc & Hrest).
      apply in_module_dependent_pairs in Hin. destruct Hin as (Hc & ci & Hci & Hdin).
      exists ci, dc. simpl in *. auto 10.
    + intros (ci & dc & Hc & Hci & Hdin & Hdc & Hrest). right.
      exists (c, d). split.
      * apply in_module_dependent_pairs. eauto.
      * apply dependent_key_Some. split; auto. exists dc. auto.
  - apply group_fold_NoDup. constructor.
Qed.

Lemma module_dependents_classified_witness :
  exists a,
    analyze_module_dependencies (init hub_tree hub_graph) "hub" = Ok a
    /\ external_dependent_recorded a "alpha" "hub.Helper" "alpha.A".
Proof.
  assert (Hget : exists info,
             dict_get "hub" (modules (parsed_tree (init hub_tree hub_graph)))
             = Some info
             /\ components info = ["hub.H"; "hub.Helper"]).
  { vm_compute. eexists. split; reflexivity. }
  destruct Hget as (info & Hget & Hcomps).
  assert (Hc : exists ci,
             dict_get "hub.Helper" (component_map (init hub_tree hub_graph)) = Some ci
             /\ depended_by ci = ["hub.H"; "alpha.A"]).
  { vm_compute. eexists. split; reflexivity. }
  destruct Hc as (ci & Hci & Hby).
  assert (Hd : exists dc,
             dict_get "alpha.A" (component_map (init hub_tree hub_graph)) = Some dc
             /\ module dc = Some "alpha").
  { vm_compute. eexists. split; reflexivity. }
  destruct Hd as (dc & Hdc & Hm).
  destruct (module_dependents_classified (init hub_tree hub_graph) "hub" info Hget)
    as (a & Ha & H).
  exists a. split; [exact Ha|].
  apply (proj2 (H "alpha" "hub.Helper" "alpha.A")).
  exists ci, dc. rewrite Hcomps, Hby.
  split; [simpl; auto|]. split; [exact Hci|]. split; [simpl; auto|].
  split; [exact Hdc|]. split; [exact Hm|]. split; discriminate.
Defined.

Lemma groups_well_formed {X : Type} (key : X -> option (string * Relationship))
    module_path xs :
  (forall x m r, key x = Some (m, r) -> m <> module_path /\ m <> "") ->
  well_formed_groups module_path (groups (fold_left (group_step key) xs [])).
Proof.
  intros Hkey.
  assert (Hnd : NoDup (dict_keys (fold_left (group_step key) xs [])))
    by (apply group_fold_NoDup; constructor).
  split.
  - unfold groups. rewrite map_map. exact Hnd.
  - intros g Hg. unfold groups in Hg. apply in_map_iff in Hg.
    destruct Hg as ([m l] & <- & Hin). simpl.
    assert (Hget : dict_get m (fold_left (group_step key) xs []) = Some l)
      by (now apply In_dict_get).
    assert (Hne : l <> []).
    { eapply group_fold_nonempty; [|exact Hget]. discriminate. }
    destruct l as [|r l]; [congruence|].
    assert (Hg : grouped_in (fold_left (group_step key) xs []) m r).
    { exists (r :: l). split; auto. now left. }
    apply group_fold_in in Hg. destruct Hg as [[l' [Hl' _]]|(x & _ & Hk)];
      [discriminate|].
    destruct (Hkey x m r Hk). auto.
Qed.

(** X11. In a module analysis, the external dependency groups and the
    external dependent groups each have pairwise distinct modules, never
    the queried module nor an empty path, and no group is empty; so the
    external edge count is at least the number of groups. *)
Theorem module_groups_well_formed :
  forall self module_path module_info,
    dict_get module_path (modules (parsed_tree self)) = Some module_info ->
    exists a,
      analyze_module_dependencies self module_path = Ok a
      /\ well_formed_groups module_path (ma_external_dependencies a)
      /\ well_formed_groups module_path (ma_external_dependents a)
      /\ List.length (ma_external_dependencies a)
         <= external_edge_count (ma_complexity a).
Proof.
  intros self module_path module_info Hget.
  destruct (analyze_module_groups self module_path module_info Hget)
    as (a & Ha & _ & _ & Hx & Hd).
  destruct (analyze_module_dependencies_found self module_path module_info Hget)
    as (a' & Ha' & _ & _ & Hc).
  assert (a' = a) by congruence. subst a'.
  exists a. split; [exact Ha|].
  assert (W1 : well_formed_groups module_path (ma_external_dependencies a)).
  { rewrite Hx. apply groups_well_formed. intros x m r Hk.
    apply dep_key_Some in Hk. destruct Hk as (_ & dc & _ & _ & H). exact H. }
  split; [exact W1|]. split.
  - rewrite Hd. apply groups_well_formed. intros x m r Hk.
    apply dependent_key_Some in Hk. destruct Hk as (_ & dc & _ & _ & H). exact H.
  - rewrite Hc. cbn [external_edge_count]. destruct W1 as [_ W].
    unfold count_relationships.
    assert (Hgen : forall gs acc,
               (forall g, In g gs -> relationships g <> []) ->
               acc + List.length gs
               <= fold_left (fun acc d => acc + List.length (relationships d)) gs acc).
    { induction gs as [|g gs IH]; intros acc Hgs; simpl; [lia|].
      assert (Hg : relationships g <> []) by (apply Hgs; now left).
      specialize (IH (acc + List.length (relationships g))
                    (fun g' H => Hgs g' (or_intror H))).
      destruct (relationships g); [congruence|]. simpl in *. lia. }
    apply (Hgen _ 0). intros g Hg. now apply W.
Qed.

Lemma module_groups_well_formed_witness :
  exists a,
    analyze_module_dependencies (init hub_tree hub_graph) "hub" = Ok a
    /\ well_formed_groups "hub" (ma_external_dependencies a)
    /\ well_formed_groups "hub" (ma_external_dependents a).
Proof.
  assert (Hget : exists info,
             dict_get "hub" (modules (parsed_tree (init hub_tree hub_graph)))
             = Some info).
  { vm_compute. eexists. reflexivity. }
  destruct Hget as (info & Hget).
  destruct (module_groups_well_formed (init hub_tree hub_graph) "hub" info Hget)
    as (a & Ha & W1 & W2 & _).
  exists a. split; [exact Ha|]. split; [exact W1|exact W2].
Defined.

(** ** Cohesion at its extremes *)





(** ** Module level and component level agree *)

Lemma external_entry_in cm comp_module ids d c :
  In d ids -> dict_get d cm = Some c -> module c <> comp_module ->
  In (mkDepInfo d (name c) (component_type c) (Some (module c)))
    (flat_map (external_entry cm comp_module) ids).
Proof.
  intros Hin Hc Hm. apply in_flat_map. exists d. split; auto.
  unfold external_entry. rewrite Hc. apply opt_eqb_neq in Hm. rewrite Hm. now left.
Qed.

(** X13. For a component listed by a module of the parsed tree and
    assigned to that module, the module-level analysis records an internal
    edge to [d] exactly when the component-level analysis lists [d] as an
    internal dependency, and an external relationship to [d] under module
    [m] exactly when the component-level analysis has an external
    dependency entry for [d] whose module is the non-empty path [m]. *)
Theorem module_and_component_levels_agree :
  forall self module_path module_info comp_id comp_info,
    dict_get module_path (modules (parsed_tree self)) = Some module_info ->
    In comp_id (components module_info) ->
    dict_get comp_id (component_map self) = Some comp_info ->
    module comp_info = Some module_path ->
    exists a,
      analyze_module_dependencies self module_path = Ok a
      /\ forall d,
           (internal_edge_recorded a comp_id d <->
            In d (map di_id (internal_dependencies
                               (analyze_dependencies self comp_id))))
           /\ forall m,
                external_edge_recorded a m comp_id d <->
                (m <> ""
                 /\ exists e,
                      In e (external_dependencies (analyze_dependencies self comp_id))
                      /\ di_id e = d /\ di_module e = Some (Some m)).
Proof.
  intros self module_path module_info c ci Hget Hc Hci Hmod.
  destruct (analyze_module_dependencies_found self module_path module_info Hget)
    as (a & Ha & Hi & Hx & _).
  destruct (analyze_dependencies_found self c ci Hci) as (_ & Hci_i & Hci_x & _).
  exists a. split; [exact Ha|]. intros d. split.
  - unfold internal_edge_recorded.
    rewrite Hi, pair_step_internal, Hci_i, in_internal_entries, Hmod. cbn [fst].
    split.
    + intros [[]|(c' & d' & dc & Hin & [= <- <-] & Hd & Hm)].
      apply in_module_pairs in Hin. destruct Hin as (_ & info & Hinfo & Hdin).
      assert (info = ci) by congruence. subst. split; eauto.
    + intros (Hdin & dc & Hd & Hm). right. exists c, d, dc.
      repeat split; auto. apply in_module_pairs. eauto.
  - intros m. unfold external_edge_recorded. rewrite Hx, in_groups.
    + rewrite pair_step_external, Hci_x, Hmod. cbn [snd]. split.
      * intros [[l [Hl _]]|(c' & d' & dc & Hin & [= <- <-] & Hd & Hm & Hne & Hne')];
          [discriminate|].
        apply in_module_pairs in Hin. destruct Hin as (_ & info & Hinfo & Hdin).
        assert (info = ci) by congruence. subst. split; [exact Hne'|].
        exists (mkDepInfo d (name dc) (component_type dc) (Some (module dc))).
        split; [|simpl; split; congruence].
        apply external_entry_in; auto. congruence.
      * intros (Hne & e & He & Hid & Hem).
        apply external_entry_data in He.
        destruct He as (Hdin & dc & Hd & Hm & Hemod & _).
        rewrite Hid in *. right. exists c, d, dc.
        split; [apply in_module_pairs; eauto|].
        split; [reflexivity|]. split; [exact Hd|].
        assert (module dc = Some m) by congruence.
        repeat split; auto. congruence.
    + apply pair_step_NoDup. constructor.
Qed.

Lemma module_and_component_levels_agree_witness :
  exists a,
    analyze_module_dependencies (init hub_tree hub_graph) "hub" = Ok a
    /\ internal_edge_recorded a "hub.H" "hub.Helper".
Proof.
  assert (Hget : exists info,
             dict_get "hub" (modules (parsed_tree (init hub_tree hub_graph)))
             = Some info
             /\ components info = ["hub.H"; "hub.Helper"]).
  { vm_compute. eexists. split; reflexivity. }
  destruct Hget as (info & Hget & Hcomps).
  assert (Hc : exists ci,
             dict_get "hub.H" (component_map (init hub_tree hub_graph)) = Some ci
             /\ module ci = Some "hub").
  { vm_compute. eexists. split; reflexivity. }
  destruct Hc as (ci & Hci & Hm).
  assert (Hin : In "hub.H" (components info)) by (rewrite Hcomps; simpl; auto).
  destruct (module_and_component_levels_agree (init hub_tree hub_graph) "hub" info
              "hub.H" ci Hget Hin Hci Hm) as (a & Ha & H).
  exists a. split; [exact Ha|].
  apply (proj2 (proj1 (H "hub.Helper"))). vm_compute. auto.
Defined.

(** ** Purpose inference in general *)

Lemma role_table_facts pat r c desc :
  In (pat, (r, c, desc)) role_patterns ->
  String.eqb r "unknown" = false
  /\ r <> "controller"
  /\ In r known_roles
  /\ (c = (8 # 10)%Q \/ c = (7 # 10)%Q).
Proof.
  unfold role_patterns. intros H. simpl in H.
  repeat (destruct H as [H|H];
          [injection H as <- <- <- <-;
           split; [reflexivity|]; split; [discriminate|];
           split; [simpl; tauto|]; tauto|]).
  contradiction.
Qed.

Lemma prefix_append s t : String.prefix s (s ++ t)%string = true.
Proof.
  induction s as [|c s IH]; simpl.
  - now destruct t.
  - destruct (ascii_dec c c); [exact IH|congruence].
Qed.

Lemma description_starts_with_name name r comp_type d1 d2 :
  String.prefix name (generate_purpose_description name r comp_type d1 d2) = true.
Proof.
  unfold generate_purpose_description. cbn [dict_get py_get].
  repeat (match goal with
          | |- context [String.eqb r ?s] => destruct (String.eqb r s)
          end; [apply prefix_append|]).
  simpl. apply prefix_append.
Qed.

Lemma name_matches_find name :
  name_matches name = true <->
  exists e, find (fun p : string * (string * Q * string) => str_in (fst p) (lower name))
              role_patterns = Some e.
Proof.
  unfold name_matches. split.
  - intros H. apply existsb_exists in H. destruct H as (x & Hin & Hx).
    destruct (find _ role_patterns) as [e|] eqn:E; [eauto|].
    exfalso. eapply find_none in E; [|exact Hin]. simpl in E. congruence.
  - intros (e & H). apply find_some in H. apply existsb_exists. eauto.
Qed.

Ltac purpose_cases info :=
  destruct (Nat.eqb (dependency_count info) 0) eqn:Edep;
  [apply Nat.eqb_eq in Edep
  |apply Nat.eqb_neq in Edep;
   destruct (Nat.ltb 10 (dependency_count info)) eqn:Emany;
   [apply Nat.ltb_lt in Emany|apply Nat.ltb_ge in Emany]];
  (destruct (Nat.eqb (dependent_count info) 0) eqn:Edt;
   [apply Nat.eqb_eq in Edt
   |apply Nat.eqb_neq in Edt;
    destruct (Nat.ltb 10 (dependent_count info)) eqn:Emanyd;
    [apply Nat.ltb_lt in Emanyd|apply Nat.ltb_ge in Emanyd]]).

(** X14. For a component of the map, [infer_component_purpose] returns a
    role of the fixed list, a confidence between 0.5 and 0.8, the counts
    and type in [metrics] and a description that starts with the
    component's name.  The role is "unknown" exactly when no fragment of
    the table occurs in the lower-cased name and the component has 1 to 10
    dependencies, "controller" exactly when no fragment occurs and it has
    more than 10; with no fragment and no dependency it is "model" with
    confidence 0.6. *)
Theorem purpose_role_rules :
  forall self component_id info,
    dict_get component_id (component_map self) = Some info ->
    exists p,
      infer_component_purpose self component_id = Ok p
      /\ In (role p) known_roles
      /\ (5 # 10 <= confidence p <= 8 # 10)%Q
      /\ String.prefix (name info) (primary_purpose p) = true
      /\ metrics p = mkMetrics (dependency_count info) (dependent_count info)
                       (component_type info)
      /\ (role p = "unknown" <->
          name_matches (name info) = false /\ 1 <= dependency_count info <= 10)
      /\ (role p = "controller" <->
          name_matches (name info) = false /\ 10 < dependency_count info)
      /\ (name_matches (name info) = false -> dependency_count info = 0 ->
          role p = "model" /\ confidence p = (6 # 10)%Q)
      /\ (role p = "unknown" -> confidence p = (5 # 10)%Q).
Proof.
  intros self component_id info Hget.
  unfold infer_component_purpose, dict_mem.
  rewrite (nonempty_get _ _ _ Hget), Hget. cbv zeta. cbn [negb orb].
  destruct (find _ role_patterns) as [[pat [[r c] desc]]|] eqn:Ef.
  - assert (Hm : name_matches (name info) = true)
      by (apply name_matches_find; eauto).
    apply find_some in Ef. destruct Ef as [Hin _].
    destruct (role_table_facts pat r c desc Hin) as (Hu & Hc & Hk & Hconf).
    assert (Hne : r <> "unknown") by (now apply String.eqb_neq).
    rewrite Hm.
    purpose_cases info; rewrite ?Hu;
      (eexists; split; [reflexivity|]);
      cbn [role confidence primary_purpose metrics];
      (split; [exact Hk|]);
      (split; [destruct Hconf as [-> | ->]; split; discriminate|]);
      (split; [apply description_starts_with_name|]);
      (split; [reflexivity|]);
      repeat split; try (intros; exfalso; congruence);
      try (intros [? ?]; discriminate); try discriminate.
  - assert (Hm : name_matches (name info) = false).
    { destruct (name_matches (name info)) eqn:E; [|reflexivity].
      apply name_matches_find in E. destruct E as [e E].
      rewrite E in Ef. discriminate. }
    rewrite Hm.
    purpose_cases info;
      cbn [String.eqb Ascii.eqb Bool.eqb];
      (eexists; split; [reflexivity|]);
      cbn [role confidence primary_purpose metrics];
      (split; [simpl; tauto|]);
      (split; [split; discriminate|]);
      (split; [apply description_starts_with_name|]);
      (split; [reflexivity|]);
      repeat split; try discriminate; try lia; try reflexivity;
      try (intros [_ ?]; lia); try (intros; lia).
Qed.

Lemma purpose_role_rules_witness :
  exists p,
    infer_component_purpose (init [] roles_graph) "pkg.Busy" = Ok p
    /\ role p = "controller".
Proof.
  assert (Hget : exists info,
             dict_get "pkg.Busy" (component_map (init [] roles_graph)) = Some info
             /\ name info = "Busy"
             /\ dependency_count info = 11).
  { vm_compute. eexists. repeat split. }
  destruct Hget as (info & Hget & Hname & Hd).
  assert (Hn : name_matches (name info) = false)
    by (rewrite Hname; vm_compute; reflexivity).
  destruct (purpose_role_rules (init [] roles_graph) "pkg.Busy" info Hget)
    as (p & Hp & _ & _ & _ & _ & _ & Hc & _).
  exists p. split; [exact Hp|].
  apply (proj2 Hc). split; [exact Hn|]. rewrite Hd. lia.
Defined.

Ltac note_hyps :=
  repeat match goal with
         | H : _ \/ _ |- _ => destruct H
         | H : _ /\ _ |- _ => destruct H
         | H : False |- _ => contradiction
         | H : @eq string _ _ |- _ =>
             unfold name_note, many_dependents_note, many_dependencies_note,
               no_dependents_note, no_dependencies_note in H;
             simpl in H; discriminate H
         | H : @eq bool _ _ |- _ => discriminate H
         | H : @eq (list string) _ _ |- _ => discriminate H
         end.

Ltac note_goal :=
  intros; note_hyps;
  first [ lia | reflexivity | discriminate | (simpl; tauto) | (simpl; auto; fail) ].

Lemma name_note_not_dependents_note pat desc :
  is_dependents_note (name_note pat desc) = false.
Proof. reflexivity. Qed.

(** X15. For a component of the map, the reasoning of
    [infer_component_purpose] holds a dependents-count note exactly when
    the component has no dependent or more than 10, the no-dependents
    note exactly when it has none, and the no-dependencies note exactly
    when it has no dependency; it has at most three notes, starts with the
    name note when a fragment of the table matches, and is empty exactly
    when no fragment matches and both counts are between 1 and 10. *)
Theorem purpose_reasoning_notes :
  forall self component_id info,
    dict_get component_id (component_map self) = Some info ->
    exists p,
      infer_component_purpose self component_id = Ok p
      /\ (existsb is_dependents_note (reasoning p) = true <->
          dependent_count info = 0 \/ 10 < dependent_count info)
      /\ (In no_dependents_note (reasoning p) <-> dependent_count info = 0)
      /\ (In no_dependencies_note (reasoning p) <-> dependency_count info = 0)
      /\ List.length (reasoning p) <= 3
      /\ (name_matches (name info) = true ->
          exists pat desc,
            hd_error (reasoning p) = Some (name_note pat desc)
            /\ str_in pat (lower (name info)) = true)
      /\ (reasoning p = [] <->
          name_matches (name info) = false
          /\ 1 <= dependency_count info <= 10
          /\ 1 <= dependent_count info <= 10).
Proof.
  intros self component_id info Hget.
  unfold infer_component_purpose, dict_mem.
  rewrite (nonempty_get _ _ _ Hget), Hget. cbv zeta. cbn [negb orb].
  destruct (find _ role_patterns) as [[pat [[r c] desc]]|] eqn:Ef.
  - assert (Hm : name_matches (name info) = true)
      by (apply name_matches_find; eauto).
    apply find_some in Ef. destruct Ef as [Hin Hmatch]. simpl in Hmatch.
    destruct (role_table_facts pat r c desc Hin) as (Hu & _).
    clear Hin. rewrite Hm.
    purpose_cases info; rewrite ?Hu;
      (eexists; split; [reflexivity|]);
      cbn [reasoning app existsb List.length hd_error In];
      rewrite ?name_note_not_dependents_note;
      repeat split;
      try solve [note_goal];
      try solve [intros _; exists pat, desc; split; [reflexivity|exact Hmatch]].
  - assert (Hm : name_matches (name info) = false).
    { destruct (name_matches (name info)) eqn:E; [|reflexivity].
      apply name_matches_find in E. destruct E as [e E].
      rewrite E in Ef. discriminate. }
    clear Ef. rewrite Hm.
    purpose_cases info;
      cbn [String.eqb Ascii.eqb Bool.eqb];
      (eexists; split; [reflexivity|]);
      cbn [reasoning app existsb List.length hd_error In];
      repeat split;
      try solve [note_goal].
Qed.

Lemma purpose_reasoning_notes_witness :
  exists p,
    infer_component_purpose (init [] roles_graph) "pkg.ReportBuilder" = Ok p
    /\ In no_dependents_note (reasoning p)
    /\ ~ In no_dependencies_note (reasoning p).
Proof.
  assert (Hget : exists info,
             dict_get "pkg.ReportBuilder" (component_map (init [] roles_graph))
             = Some info
             /\ dependent_count info = 0
             /\ dependency_count info = 1).
  { vm_compute. eexists. repeat split. }
  destruct Hget as (info & Hget & Hdt & Hd).
  destruct (purpose_reasoning_notes (init [] roles_graph) "pkg.ReportBuilder" info Hget)
    as (p & Hp & _ & Hnd & Hnc & _).
  exists p. split; [exact Hp|]. split.
  - apply (proj2 Hnd). exact Hdt.
  - intros H. apply (proj1 Hnc) in H. rewrite Hd in H. discriminate.
Defined.

(** ** The analysis report *)







(** ** The repository summary *)

Lemma fold_set_keys {V : Type} (ws : list (string * V)) : forall d k,
  In k (dict_keys (fold_left (fun d w => dict_set (fst w) (snd w) d) ws d)) <->
  In k (dict_keys d) \/ In k (map fst ws).
Proof.
  induction ws as [|w ws IH]; intros d k; simpl.
  - tauto.
  - rewrite IH, dict_keys_set_In. split.
    + intros [[->|H]|H]; auto.
    + intros [H|[<-|H]]; auto.
Qed.

Lemma first_pass_keys_incl graph k :
  In k (dict_keys (first_pass graph)) -> In k (dict_keys graph).
Proof.
  unfold first_pass.
  rewrite (fold_set_map (fun kv : string * CompData =>
                           (fst kv, new_record (fst kv) (snd kv)))).
  rewrite fold_set_keys, map_map. simpl. intros [[]|H]. exact H.
Qed.

Lemma filter_split_length {A : Type} (f : A -> bool) (l : list A) :
  List.length (filter f l) + List.length (filter (fun x => negb (f x)) l)
  = List.length l.
Proof.
  induction l as [|x l IH]; simpl; auto.
  destruct (f x); simpl; lia.
Qed.

Lemma store_distinct vs : forall d,
  NoDup (dict_keys d ++ map v_path vs) ->
  fold_left store_visit vs d = d ++ map (fun v => (v_path v, info_of v)) vs.
Proof.
  induction vs as [|v vs IH]; intros d Hnd; simpl.
  - now rewrite app_nil_r.
  - simpl in Hnd. unfold store_visit at 2. rewrite dict_set_fresh.
    + rewrite IH.
      * now rewrite <- app_assoc.
      * unfold dict_keys in *. rewrite map_app, <- app_assoc. exact Hnd.
    + apply dict_get_None. intros Hin.
      apply NoDup_remove_2 in Hnd. apply Hnd. apply in_app_iff. now left.
Qed.

Lemma unique_modules tree :
  unique_paths tree ->
  modules (parse_module_tree tree)
  = map (fun v => (v_path v, info_of v)) (visits tree None 0).
Proof.
  intros Hu. rewrite parse_module_tree_visits, modules_fold_visits.
  now rewrite store_distinct.
Qed.

Lemma deepest_batch_first pt deepest :
  (exists p info, dict_get p (modules pt) = Some info /\ level info = deepest) ->
  NoDup (dict_keys (modules pt)) ->
  1 <= List.length (filter nonempty (map (level_modules pt) (range_down deepest))).
Proof.
  intros (p & info & Hget & Hl) Hnd.
  assert (Hin : In (level_modules pt deepest)
                  (filter nonempty (map (level_modules pt) (range_down deepest)))).
  { apply filter_In. split.
    - apply in_map. apply range_down_In. lia.
    - assert (Hp : In p (level_modules pt deepest))
        by (apply level_modules_In; eauto).
      destruct (level_modules pt deepest); [contradiction|reflexivity]. }
  destruct (filter _ _); [contradiction|simpl; lia].
Qed.

(** X17. For a non-empty module tree and a non-empty dependency graph,
    [get_repository_summary] returns a summary in which the root count is
    the number of top-level entries of the tree, the leaf and parent counts
    add up to the number of module nodes of the tree, the module and
    component totals do not exceed the numbers of nodes and of graph
    entries, [max_depth] is the deepest level and the number of processing
    levels is between 1 and [max_depth + 1].  With distinct module paths
    the module total is the sum of the leaf and parent counts and there
    are exactly [max_depth + 1] levels; with distinct graph keys the
    component total is the number of graph entries. *)
Theorem repository_summary_counts :
  forall tree graph,
    tree <> [] -> graph <> [] ->
    exists s,
      get_repository_summary (init tree graph) = Returned (Ok s)
      /\ n_root_modules s = List.length tree
      /\ n_leaf_modules s + n_parent_modules s = List.length (tree_paths tree)
      /\ total_modules s <= List.length (tree_paths tree)
      /\ total_components s <= List.length graph
      /\ deepest_level (parse_module_tree tree) (max_depth s)
      /\ 1 <= processing_order_levels s <= max_depth s + 1
      /\ (unique_paths tree ->
          total_modules s = n_leaf_modules s + n_parent_modules s
          /\ processing_order_levels s = max_depth s + 1)
      /\ (NoDup (dict_keys graph) -> total_components s = List.length graph).
Proof.
  intros tree graph Ht Hg.
  destruct (processing_order_returned tree graph Ht) as (deepest & Hret & Hmax & Hd).
  unfold get_repository_summary.
  rewrite (component_map_init_nonempty tree graph Hg), parsed_tree_init, Hmax, Hret.
  cbn [negb]. eexists. split; [reflexivity|].
  cbn [n_root_modules n_leaf_modules n_parent_modules total_modules
       total_components max_depth processing_order_levels].
  assert (Hleafpar : List.length (leaf_modules (parse_module_tree tree))
                     + List.length (parent_modules (parse_module_tree tree))
                     = List.length (tree_paths tree)).
  { rewrite parse_module_tree_visits, leaf_modules_fold_visits,
      parent_modules_fold_visits. simpl. unfold tree_paths.
    rewrite !length_map. apply filter_split_length. }
  assert (Hcomp : List.length (component_map (init tree graph))
                  = List.length (dict_keys (first_pass graph))).
  { rewrite <- (component_map_keys tree graph). unfold dict_keys.
    now rewrite length_map. }
  split; [|split; [exact Hleafpar|split; [|split; [|split; [exact Hd|split; [|split]]]]]].
  - assert (Hroot : root_modules (parse_module_tree tree) = dict_keys tree).
    { rewrite parse_module_tree_visits, root_modules_fold_visits.
      destruct root_visits as [_ H]. rewrite H. simpl.
      unfold dict_keys. rewrite map_map. now apply map_ext. }
    rewrite Hroot. unfold dict_keys. now rewrite length_map.
  - rewrite <- (length_map fst (modules (parse_module_tree tree))).
    apply NoDup_incl_length; [apply parsed_modules_NoDup|].
    intros p Hp. now apply parsed_modules_keys.
  - rewrite Hcomp, <- (length_map fst graph).
    apply NoDup_incl_length.
    + unfold first_pass. apply first_pass_fresh. split; [constructor|discriminate].
    + intros k. apply first_pass_keys_incl.
  - split.
    + apply deepest_batch_first; [apply Hd|apply parsed_modules_NoDup].
    + etransitivity; [apply filter_length_le|].
      rewrite length_map, range_down_length. lia.
  - intros Hu. split.
    + rewrite Hleafpar, (unique_modules tree Hu). unfold tree_paths.
      now rewrite !length_map.
    + rewrite (order_contiguous tree Hu deepest Hd), length_map, range_down_length.
      lia.
  - intros Hnd. rewrite Hcomp. unfold first_pass.
    rewrite first_pass_distinct by exact Hnd. unfold dict_keys. simpl.
    now rewrite !length_map.
Qed.

Lemma repository_summary_counts_witness :
  exists s,
    get_repository_summary (init forest_tree hub_graph) = Returned (Ok s)
    /\ total_modules s = 4 /\ n_leaf_modules s + n_parent_modules s = 4
    /\ max_depth s = 2 /\ processing_order_levels s = 3
    /\ total_components s = 6.
Proof.
  assert (Ht : forest_tree <> []) by discriminate.
  assert (Hg : hub_graph <> []) by discriminate.
  destruct (repository_summary_counts forest_tree hub_graph Ht Hg)
    as (s & Hs & _ & Hlp & _ & _ & _ & _ & Hu & Hn).
  exists s. split; [exact Hs|].
  destruct (Hu forest_tree_unique) as [Htot Hlev].
  assert (E : Returned (Ok s) = get_repository_summary (init forest_tree hub_graph))
    by (symmetry; exact Hs).
  vm_compute in E. injection E as ->. repeat split.
Defined.
